(** * AsmJit operand core: [core/operand.h]

    A shallow embedding of [Operand_], [Operand], [Label], [BaseReg],
    [RegOnly], [BaseMem] and [Imm], followed by the properties of the
    operand representation.

    Conventions.  A [uint32_t] is a [Z] in [0, 2^32); every C++ operation on
    it is written with its wrap-around ([u32]).  An [int64_t] is a [Z] in
    [-2^63, 2^63); conversions between the signed and the unsigned view are
    [i64] and [u64].  Signed 64-bit addition is the two's-complement one of
    the targets ([i64] of the mathematical sum); [i64_exact] shows that it is
    the mathematical sum whenever that sum is representable.

    The anonymous union of [Operand_] ([_data32[2]], [_data64], [_mem]) is
    kept as its two 32-bit words, in the little-endian layout of the targets:
    [_data32[0]] is [_mem.indexId] and the low half of [_data64],
    [_data32[1]] is [_mem.offsetLo32] and the high half of [_data64]. *)

From Stdlib Require Import ZArith Lia Bool List.
From Stdlib Require Import Ascii.
Import ListNotations.
Local Open Scope Z_scope.

(* ------------------------------------------------------------------ *)
(** ** Fixed-width integers *)

(** [uint32_t(x)]. *)
Definition u32 (x : Z) : Z := x mod 2 ^ 32.
(** [uint64_t(x)]. *)
Definition u64 (x : Z) : Z := x mod 2 ^ 64.
(** [int32_t(x)]. *)
Definition i32 (x : Z) : Z := (x + 2 ^ 31) mod 2 ^ 32 - 2 ^ 31.
(** [int64_t(x)]. *)
Definition i64 (x : Z) : Z := (x + 2 ^ 63) mod 2 ^ 64 - 2 ^ 63.
(** [~x] on a [uint32_t]. *)
Definition not32 (x : Z) : Z := u32 (Z.lnot x).

Definition uint32 (x : Z) : Prop := 0 <= x < 2 ^ 32.
Definition uint64 (x : Z) : Prop := 0 <= x < 2 ^ 64.
Definition int32 (x : Z) : Prop := - 2 ^ 31 <= x < 2 ^ 31.
Definition int64 (x : Z) : Prop := - 2 ^ 63 <= x < 2 ^ 63.

(** [uint8_t(x)], [int8_t(x)], [uint16_t(x)], [int16_t(x)]. *)
Definition u8 (x : Z) : Z := x mod 2 ^ 8.
Definition i8 (x : Z) : Z := (x + 2 ^ 7) mod 2 ^ 8 - 2 ^ 7.
Definition u16 (x : Z) : Z := x mod 2 ^ 16.
Definition i16 (x : Z) : Z := (x + 2 ^ 15) mod 2 ^ 16 - 2 ^ 15.

Definition uint8 (x : Z) : Prop := 0 <= x < 2 ^ 8.
Definition int8 (x : Z) : Prop := - 2 ^ 7 <= x < 2 ^ 7.
Definition uint16 (x : Z) : Prop := 0 <= x < 2 ^ 16.
Definition int16 (x : Z) : Prop := - 2 ^ 15 <= x < 2 ^ 15.

(* ------------------------------------------------------------------ *)
(** ** [Globals] and [Support] ([core/globals.h], [core/support.h]) *)

Module Globals.

(** Modelled from the spec: [Globals::kInvalidId] ([core/globals.h] is not
    among the sources), the global invalid-id sentinel, the largest 32-bit
    value; one below it is the last virtual id. *)
Definition kInvalidId : Z := 0xFFFFFFFF.

End Globals.

Module Support.

Fixpoint ctz_pos (p : positive) : Z :=
  match p with
  | xO q => 1 + ctz_pos q
  | _ => 0
  end.

(** Modelled from the spec: [Support::constCtz] ([core/support.h] is not
    among the sources), the trailing zero count of a 32-bit mask.  No mask of
    the operand signature is zero; the count of zero is taken as 32. *)
Definition constCtz (mask : Z) : Z :=
  match mask with
  | Zpos p => ctz_pos p
  | _ => 32
  end.

(** Modelled from the spec: [Support::isBetween<T>(x, a, b)], the single
    range check [a <= x && x <= b]. *)
Definition isBetween (x a b : Z) : bool := (a <=? x) && (x <=? b).

(** Modelled from the spec: [Support::bitMaskFromBool<uint32_t>(b)], all
    ones when [b] holds and zero otherwise. *)
Definition bitMaskFromBool (b : bool) : Z := if b then 0xFFFFFFFF else 0.

(** Modelled from the spec: [Support::unpackU32At0] and
    [Support::unpackU32At1], the words a 64-bit value leaves in [_data32[0]]
    and [_data32[1]]. *)
Definition unpackU32At0 (x : Z) : Z := Z.land (u64 x) 0xFFFFFFFF.
Definition unpackU32At1 (x : Z) : Z := Z.shiftr (u64 x) 32.

(** Modelled from the spec: the fit predicates of [Support] at [int64_t],
    the two's-complement range of each width. *)
Definition isInt8 (x : Z) : bool := isBetween x (-128) 127.
Definition isUInt8 (x : Z) : bool := (0 <=? x) && (x <=? 255).
Definition isInt16 (x : Z) : bool := isBetween x (-32768) 32767.
Definition isUInt16 (x : Z) : bool := (0 <=? x) && (x <=? 65535).
Definition isInt32 (x : Z) : bool := isBetween x (-2147483648) 2147483647.
Definition isUInt32 (x : Z) : bool := (0 <=? x) && (x <=? 0xFFFFFFFF).

End Support.

(* ------------------------------------------------------------------ *)
(** ** [Operand_] *)

(** [enum OpType]. *)
Definition kOpNone : Z := 0.
Definition kOpReg : Z := 1.
Definition kOpMem : Z := 2.
Definition kOpImm : Z := 3.
Definition kOpLabel : Z := 4.

(** [enum SignatureBits]. *)
Definition kSignatureOpShift : Z := 0.
Definition kSignatureOpMask : Z := u32 (Z.shiftl 0x07 kSignatureOpShift).
Definition kSignatureRegTypeShift : Z := 3.
Definition kSignatureRegTypeMask : Z := u32 (Z.shiftl 0x1F kSignatureRegTypeShift).
Definition kSignatureRegGroupShift : Z := 8.
Definition kSignatureRegGroupMask : Z := u32 (Z.shiftl 0x0F kSignatureRegGroupShift).
Definition kSignatureMemBaseTypeShift : Z := 3.
Definition kSignatureMemBaseTypeMask : Z := u32 (Z.shiftl 0x1F kSignatureMemBaseTypeShift).
Definition kSignatureMemIndexTypeShift : Z := 8.
Definition kSignatureMemIndexTypeMask : Z := u32 (Z.shiftl 0x1F kSignatureMemIndexTypeShift).
Definition kSignatureMemBaseIndexShift : Z := 3.
Definition kSignatureMemBaseIndexMask : Z := u32 (Z.shiftl 0x3FF kSignatureMemBaseIndexShift).
Definition kSignatureMemAddrTypeShift : Z := 13.
Definition kSignatureMemAddrTypeMask : Z := u32 (Z.shiftl 0x03 kSignatureMemAddrTypeShift).
Definition kSignatureMemRegHomeShift : Z := 15.
Definition kSignatureMemRegHomeFlag : Z := u32 (Z.shiftl 0x01 kSignatureMemRegHomeShift).
Definition kSignatureSizeShift : Z := 24.
Definition kSignatureSizeMask : Z := u32 (Z.shiftl 0xFF kSignatureSizeShift).

(** [enum VirtIdConstants]. *)
Definition kVirtIdMin : Z := 256.
Definition kVirtIdMax : Z := Globals.kInvalidId - 1.
Definition kVirtIdCount : Z := u32 (kVirtIdMax - kVirtIdMin + 1).

Definition isVirtId (id : Z) : bool := u32 (id - kVirtIdMin) <? u32 kVirtIdCount.
Definition indexToVirtId (id : Z) : Z := u32 (id + kVirtIdMin).
Definition virtIdToIndex (id : Z) : Z := u32 (id - kVirtIdMin).

(** The members of [Operand_]; the union is its two words. *)
Record Operand_ : Type := mkOperand_ {
  _signature : Z;
  _baseId : Z;
  _data32_0 : Z;
  _data32_1 : Z
}.

(** The views of the union. *)
Definition _mem_indexId (o : Operand_) : Z := _data32_0 o.
Definition _mem_offsetLo32 (o : Operand_) : Z := _data32_1 o.
Definition _data64 (o : Operand_) : Z :=
  Z.lor (_data32_0 o) (Z.shiftl (_data32_1 o) 32).

Definition set_signature (v : Z) (o : Operand_) : Operand_ :=
  mkOperand_ v (_baseId o) (_data32_0 o) (_data32_1 o).
Definition set_baseId (v : Z) (o : Operand_) : Operand_ :=
  mkOperand_ (_signature o) v (_data32_0 o) (_data32_1 o).
Definition set_mem_indexId (v : Z) (o : Operand_) : Operand_ :=
  mkOperand_ (_signature o) (_baseId o) v (_data32_1 o).
Definition set_mem_offsetLo32 (v : Z) (o : Operand_) : Operand_ :=
  mkOperand_ (_signature o) (_baseId o) (_data32_0 o) v.
(** [_data64 = v] for a [uint64_t] [v]. *)
Definition set_data64 (v : Z) (o : Operand_) : Operand_ :=
  mkOperand_ (_signature o) (_baseId o) (Z.land v 0xFFFFFFFF) (Z.shiftr v 32).

(** Every member holds a [uint32_t]. *)
Definition wf (o : Operand_) : Prop :=
  uint32 (_signature o) /\ uint32 (_baseId o) /\
  uint32 (_data32_0 o) /\ uint32 (_data32_1 o).

Definition _initReg (signature rId : Z) (o : Operand_) : Operand_ :=
  set_data64 0 (set_baseId rId (set_signature signature o)).

Definition copyFrom (other : Operand_) (o : Operand_) : Operand_ := other.

(** [Operand_::reset]. *)
Definition reset (o : Operand_) : Operand_ :=
  set_data64 0 (set_baseId 0 (set_signature 0 o)).

Definition hasSignature (signature : Z) (o : Operand_) : bool :=
  _signature o =? signature.
Definition signature (o : Operand_) : Z := _signature o.
Definition setSignature (signature : Z) (o : Operand_) : Operand_ :=
  set_signature signature o.

(** The templates over a mask, on the signature word itself; [RegInfo] and
    [RegOnly] repeat the first one verbatim. *)
Definition hasPart (mask sig : Z) : bool := negb (Z.land sig mask =? 0).
Definition getPart (mask sig : Z) : Z :=
  Z.land (Z.shiftr sig (Support.constCtz mask))
         (Z.shiftr mask (Support.constCtz mask)).
(** The condition of the [ASMJIT_ASSERT] of [_setSignaturePart]. *)
Definition fitsPart (mask value : Z) : bool :=
  Z.land value (not32 (Z.shiftr mask (Support.constCtz mask))) =? 0.
Definition setPart (mask value sig : Z) : Z :=
  Z.lor (Z.land sig (not32 mask))
        (u32 (Z.shiftl value (Support.constCtz mask))).

Definition _hasSignaturePart (mask : Z) (o : Operand_) : bool :=
  hasPart mask (_signature o).
Definition _getSignaturePart (mask : Z) (o : Operand_) : Z :=
  getPart mask (_signature o).
Definition _setSignaturePart (mask value : Z) (o : Operand_) : Operand_ :=
  set_signature (setPart mask value (_signature o)) o.

Definition opType (o : Operand_) : Z := _getSignaturePart kSignatureOpMask o.
Definition isNone (o : Operand_) : bool := _signature o =? 0.
Definition isReg (o : Operand_) : bool := opType o =? kOpReg.
Definition isMem (o : Operand_) : bool := opType o =? kOpMem.
Definition isImm (o : Operand_) : bool := opType o =? kOpImm.
Definition isLabel (o : Operand_) : bool := opType o =? kOpLabel.

Definition isPhysReg (o : Operand_) : bool := isReg o && (_baseId o <? 0xFF).
Definition isVirtReg (o : Operand_) : bool := isReg o && (_baseId o >? 0xFF).

Definition hasSize (o : Operand_) : bool := _hasSignaturePart kSignatureSizeMask o.
Definition size (o : Operand_) : Z := _getSignaturePart kSignatureSizeMask o.
Definition id (o : Operand_) : Z := _baseId o.

Definition isEqual (other o : Operand_) : bool :=
  (_signature o =? _signature other) &&
  (_baseId o =? _baseId other) &&
  (_data64 o =? _data64 other).

(** [isReg(rType)]. *)
Definition isRegOfType (rType : Z) (o : Operand_) : bool :=
  Z.land (_signature o) (Z.lor kSignatureOpMask kSignatureRegTypeMask) =?
  Z.lor (u32 (Z.shiftl kOpReg kSignatureOpShift))
        (u32 (Z.shiftl rType kSignatureRegTypeShift)).

Definition isRegOrMem (o : Operand_) : bool :=
  Support.isBetween (opType o) kOpReg kOpMem.

(* ------------------------------------------------------------------ *)
(** ** [Operand] *)

(** [Operand(Globals::Init, u0, u1, u2, u3)]. *)
Definition Operand_init (u0 u1 u2 u3 : Z) : Operand_ := mkOperand_ u0 u1 u2 u3.

(** [Operand()]. *)
Definition Operand : Operand_ := mkOperand_ kOpNone 0 0 0.

(* ------------------------------------------------------------------ *)
(** ** [Label] *)

Module Label.

Definition kTypeAnonymous : Z := 0.
Definition kTypeLocal : Z := 1.
Definition kTypeGlobal : Z := 2.
Definition kTypeCount : Z := 3.

Definition kLabelTag : Z := 0x1.

(** [Label()]. *)
Definition Label : Operand_ := Operand_init kOpLabel Globals.kInvalidId 0 0.
(** [Label(id)]. *)
Definition ofId (id : Z) : Operand_ := Operand_init kOpLabel id 0 0.

(** [Label::reset], which hides [Operand_::reset]. *)
Definition reset (o : Operand_) : Operand_ :=
  set_data64 0 (set_baseId Globals.kInvalidId (set_signature kOpLabel o)).

Definition isValid (o : Operand_) : bool := negb (_baseId o =? Globals.kInvalidId).
Definition setId (id : Z) (o : Operand_) : Operand_ := set_baseId id o.

End Label.

(* ------------------------------------------------------------------ *)
(** ** Register traits, [BaseReg], [RegOnly] *)

(** The members every [RegTraits<REG_TYPE>] defines. *)
Record RegTraits : Type := mkRegTraits {
  kValid : Z;
  kCount : Z;
  kTypeId : Z;
  kType : Z;
  kGroup : Z;
  kSize : Z
}.

(** [kSignature] of [ASMJIT_DEFINE_REG_TRAITS]. *)
Definition kSignature (t : RegTraits) : Z :=
  Z.lor (Z.lor (Z.lor (u32 (Z.shiftl kOpReg kSignatureOpShift))
                      (u32 (Z.shiftl (kType t) kSignatureRegTypeShift)))
               (u32 (Z.shiftl (kGroup t) kSignatureRegGroupShift)))
        (u32 (Z.shiftl (kSize t) kSignatureSizeShift)).

Module BaseReg.

Definition kTypeNone : Z := 0.
Definition kTypeGp8Lo : Z := 2.
Definition kTypeGp32 : Z := 5.
Definition kTypeGp64 : Z := 6.
Definition kTypeVec128 : Z := 9.
Definition kTypeCustom : Z := 16.
Definition kTypeMax : Z := 31.

Definition kGroupGp : Z := 0.
Definition kGroupVec : Z := 1.
Definition kGroupOther0 : Z := 2.
Definition kGroupOther1 : Z := 3.
Definition kGroupVirt : Z := 4.
Definition kGroupCount : Z := 16.

Definition kIdBad : Z := 0xFF.

(** [BaseReg::kSignature]; [BaseRegTraits::kSignature] is the same. *)
Definition kSignature : Z := kOpReg.

(** [BaseReg()]. *)
Definition BaseReg : Operand_ := Operand_init kSignature kIdBad 0 0.
(** [BaseReg(signature, rId)]. *)
Definition make (signature rId : Z) : Operand_ := Operand_init signature rId 0 0.
(** [BaseReg(other, rId)]. *)
Definition withId (other : Operand_) (rId : Z) : Operand_ :=
  Operand_init (_signature other) rId 0 0.

Definition isSame (other o : Operand_) : bool :=
  (_signature o =? _signature other) && (_baseId o =? _baseId other).
Definition isValid (o : Operand_) : bool :=
  negb (_signature o =? 0) && negb (_baseId o =? kIdBad).

(** [BaseReg::isPhysReg] and [BaseReg::isVirtReg], which hide those of
    [Operand_]. *)
Definition isPhysReg (o : Operand_) : bool := _baseId o <? kIdBad.
Definition isVirtReg (o : Operand_) : bool := _baseId o >? kIdBad.

Definition isType (type : Z) (o : Operand_) : bool :=
  Z.land (_signature o) kSignatureRegTypeMask =?
  u32 (Z.shiftl type kSignatureRegTypeShift).
Definition isGroup (group : Z) (o : Operand_) : bool :=
  Z.land (_signature o) kSignatureRegGroupMask =?
  u32 (Z.shiftl group kSignatureRegGroupShift).

Definition type (o : Operand_) : Z := _getSignaturePart kSignatureRegTypeMask o.
Definition group (o : Operand_) : Z := _getSignaturePart kSignatureRegGroupMask o.

Definition setId (rId : Z) (o : Operand_) : Operand_ := set_baseId rId o.
Definition setSignatureAndId (signature rId : Z) (o : Operand_) : Operand_ :=
  set_baseId rId (set_signature signature o).

(** The members [isGp()] and [isVec()]. *)
Definition isGp (o : Operand_) : bool := isGroup kGroupGp o.
Definition isVec (o : Operand_) : bool := isGroup kGroupVec o.

(** [BaseReg::isReg(rType)] and [BaseReg::isReg(rType, rId)], which hide those
    of [Operand_]. *)
Definition isRegOfType (rType : Z) (o : Operand_) : bool := isType rType o.
Definition isRegOfTypeAndId (rType rId : Z) (o : Operand_) : bool :=
  isType rType o && (id o =? rId).

(** [cloneAs(const RegT& other)]. *)
Definition cloneAs (other o : Operand_) : Operand_ := make (signature other) (id o).

(** The statics [isGp(op)], [isVec(op)] and their [(op, rId)] forms. *)
Definition isGpOp (op : Operand_) : bool :=
  Z.land (signature op) (Z.lor kSignatureOpMask kSignatureRegGroupMask) =?
  Z.lor (u32 (Z.shiftl kOpReg kSignatureOpShift))
        (u32 (Z.shiftl kGroupGp kSignatureRegGroupShift)).
Definition isVecOp (op : Operand_) : bool :=
  Z.land (signature op) (Z.lor kSignatureOpMask kSignatureRegGroupMask) =?
  Z.lor (u32 (Z.shiftl kOpReg kSignatureOpShift))
        (u32 (Z.shiftl kGroupVec kSignatureRegGroupShift)).
Definition isGpOpId (op : Operand_) (rId : Z) : bool := isGpOp op && (id op =? rId).
Definition isVecOpId (op : Operand_) (rId : Z) : bool := isVecOp op && (id op =? rId).

End BaseReg.

Module RegOnly.

Record RegOnly : Type := mkRegOnly {
  _signature : Z;
  _id : Z
}.

(** [init(signature, id)]. *)
Definition init (signature id : Z) (r : RegOnly) : RegOnly :=
  mkRegOnly signature id.
(** [init(const BaseReg&)]. *)
Definition initReg (reg : Operand_) (r : RegOnly) : RegOnly :=
  init (signature reg) (id reg) r.
Definition reset (r : RegOnly) : RegOnly := init 0 0 r.

Definition isNone (r : RegOnly) : bool := _signature r =? 0.
Definition isReg (r : RegOnly) : bool := negb (_signature r =? 0).
Definition isPhysReg (r : RegOnly) : bool := _id r <? BaseReg.kIdBad.
Definition isVirtReg (r : RegOnly) : bool := _id r >? BaseReg.kIdBad.
Definition signature (r : RegOnly) : Z := _signature r.
Definition id (r : RegOnly) : Z := _id r.
Definition setId (id : Z) (r : RegOnly) : RegOnly := mkRegOnly (_signature r) id.

Definition _getSignaturePart (mask : Z) (r : RegOnly) : Z :=
  getPart mask (_signature r).
Definition type (r : RegOnly) : Z := _getSignaturePart kSignatureRegTypeMask r.
Definition group (r : RegOnly) : Z := _getSignaturePart kSignatureRegGroupMask r.

(** [toReg<RegT>()], every [RegT(signature, rId)] being
    [BaseReg(signature, rId)]. *)
Definition toReg (r : RegOnly) : Operand_ := BaseReg.make (_signature r) (_id r).

End RegOnly.

(** [struct RegInfo]. *)
Module RegInfo.

Record RegInfo : Type := mkRegInfo {
  _signature : Z
}.

Definition reset (r : RegInfo) : RegInfo := mkRegInfo 0.
Definition setSignature (signature : Z) (r : RegInfo) : RegInfo := mkRegInfo signature.
Definition isValid (r : RegInfo) : bool := negb (_signature r =? 0).
Definition signature (r : RegInfo) : Z := _signature r.
Definition opType (r : RegInfo) : Z := getPart kSignatureOpMask (_signature r).
Definition group (r : RegInfo) : Z := getPart kSignatureRegGroupMask (_signature r).
Definition type (r : RegInfo) : Z := getPart kSignatureRegTypeMask (_signature r).
Definition size (r : RegInfo) : Z := getPart kSignatureSizeMask (_signature r).

End RegInfo.

(* ------------------------------------------------------------------ *)
(** ** [BaseMem] *)

Module BaseMem.

Definition kAddrTypeDefault : Z := 0.
Definition kAddrTypeAbs : Z := 1.
Definition kAddrTypeRel : Z := 2.

Definition kSignatureMemAbs : Z := u32 (Z.shiftl kAddrTypeAbs kSignatureMemAddrTypeShift).
Definition kSignatureMemRel : Z := u32 (Z.shiftl kAddrTypeRel kSignatureMemAddrTypeShift).

(** [struct Decomposed]; [d_offset] is the [int32_t] member. *)
Record Decomposed : Type := mkDecomposed {
  d_baseType : Z;
  d_baseId : Z;
  d_indexType : Z;
  d_indexId : Z;
  d_offset : Z;
  d_size : Z;
  d_flags : Z
}.

(** [BaseMem()]. *)
Definition BaseMem : Operand_ := Operand_init kOpMem 0 0 0.

(** [BaseMem(const Decomposed&)]. *)
Definition ofDecomposed (d : Decomposed) : Operand_ :=
  Operand_init
    (Z.lor (Z.lor (Z.lor (Z.lor kOpMem
                                (u32 (Z.shiftl (d_baseType d) kSignatureMemBaseTypeShift)))
                         (u32 (Z.shiftl (d_indexType d) kSignatureMemIndexTypeShift)))
                  (u32 (Z.shiftl (d_size d) kSignatureSizeShift)))
           (d_flags d))
    (d_baseId d)
    (d_indexId d)
    (u32 (d_offset d)).

(** [BaseMem::reset], which hides [Operand_::reset]. *)
Definition reset (o : Operand_) : Operand_ :=
  set_data64 0 (set_baseId 0 (set_signature kOpMem o)).

Definition addrType (o : Operand_) : Z := _getSignaturePart kSignatureMemAddrTypeMask o.
Definition setAddrType (addrType : Z) (o : Operand_) : Operand_ :=
  _setSignaturePart kSignatureMemAddrTypeMask addrType o.
Definition resetAddrType (o : Operand_) : Operand_ :=
  _setSignaturePart kSignatureMemAddrTypeMask 0 o.
Definition isAbs (o : Operand_) : bool := addrType o =? kAddrTypeAbs.
Definition isRel (o : Operand_) : bool := addrType o =? kAddrTypeRel.

Definition isRegHome (o : Operand_) : bool := _hasSignaturePart kSignatureMemRegHomeFlag o.

Definition hasBase (o : Operand_) : bool :=
  negb (Z.land (_signature o) kSignatureMemBaseTypeMask =? 0).
Definition hasIndex (o : Operand_) : bool :=
  negb (Z.land (_signature o) kSignatureMemIndexTypeMask =? 0).
Definition hasBaseReg (o : Operand_) : bool :=
  Z.land (_signature o) kSignatureMemBaseTypeMask >?
  u32 (Z.shiftl Label.kLabelTag kSignatureMemBaseTypeShift).
Definition hasBaseLabel (o : Operand_) : bool :=
  Z.land (_signature o) kSignatureMemBaseTypeMask =?
  u32 (Z.shiftl Label.kLabelTag kSignatureMemBaseTypeShift).

Definition baseType (o : Operand_) : Z := _getSignaturePart kSignatureMemBaseTypeMask o.
Definition indexType (o : Operand_) : Z := _getSignaturePart kSignatureMemIndexTypeMask o.
Definition baseAndIndexTypes (o : Operand_) : Z :=
  _getSignaturePart kSignatureMemBaseIndexMask o.

Definition baseId (o : Operand_) : Z := _baseId o.
Definition indexId (o : Operand_) : Z := _mem_indexId o.
Definition setBaseId (rId : Z) (o : Operand_) : Operand_ := set_baseId rId o.
Definition setIndexId (rId : Z) (o : Operand_) : Operand_ := set_mem_indexId rId o.

Definition _setBase (rType rId : Z) (o : Operand_) : Operand_ :=
  set_baseId rId (_setSignaturePart kSignatureMemBaseTypeMask rType o).
Definition _setIndex (rType rId : Z) (o : Operand_) : Operand_ :=
  set_mem_indexId rId (_setSignaturePart kSignatureMemIndexTypeMask rType o).
Definition resetBase (o : Operand_) : Operand_ := _setBase 0 0 o.
Definition resetIndex (o : Operand_) : Operand_ := _setIndex 0 0 o.

Definition setSize (size : Z) (o : Operand_) : Operand_ :=
  _setSignaturePart kSignatureSizeMask size o.

Definition isOffset64Bit (o : Operand_) : bool := baseType o =? 0.

Definition hasOffset (o : Operand_) : bool :=
  negb (Z.lor (_mem_offsetLo32 o)
              (u32 (Z.land (_baseId o)
                           (Support.bitMaskFromBool (isOffset64Bit o)))) =? 0).

(** The 64-bit pattern [uint64_t(_mem.offsetLo32) | (uint64_t(_baseId) << 32)]. *)
Definition offsetBits64 (o : Operand_) : Z :=
  Z.lor (u64 (_mem_offsetLo32 o)) (u64 (Z.shiftl (u64 (_baseId o)) 32)).

Definition offset (o : Operand_) : Z :=
  if isOffset64Bit o then i64 (offsetBits64 o)
  else i64 (i32 (_mem_offsetLo32 o)).

Definition offsetLo32 (o : Operand_) : Z := i32 (_mem_offsetLo32 o).
Definition offsetHi32 (o : Operand_) : Z := i32 (_baseId o).

Definition setOffset (offset : Z) (o : Operand_) : Operand_ :=
  let lo := u32 (Z.land (u64 offset) 0xFFFFFFFF) in
  let hi := u32 (Z.shiftr (u64 offset) 32) in
  let hiMsk := Support.bitMaskFromBool (isOffset64Bit o) in
  set_baseId (Z.lor (Z.land hi hiMsk) (Z.land (_baseId o) (not32 hiMsk)))
             (set_mem_offsetLo32 lo o).
Definition setOffsetLo32 (offset : Z) (o : Operand_) : Operand_ :=
  set_mem_offsetLo32 (u32 offset) o.

(** [addOffset(int64_t offset)]. *)
Definition addOffset (offset : Z) (o : Operand_) : Operand_ :=
  if isOffset64Bit o then
    let result := i64 (offset + i64 (offsetBits64 o)) in
    set_baseId (u32 (Z.shiftr (u64 result) 32))
               (set_mem_offsetLo32 (u32 (Z.land (u64 result) 0xFFFFFFFF)) o)
  else
    set_mem_offsetLo32
      (u32 (_mem_offsetLo32 o + u32 (Z.land (u64 offset) 0xFFFFFFFF))) o.
Definition addOffsetLo32 (offset : Z) (o : Operand_) : Operand_ :=
  set_mem_offsetLo32 (u32 (_mem_offsetLo32 o + u32 offset)) o.

Definition resetOffset (o : Operand_) : Operand_ := setOffset 0 o.

Definition resetOffsetLo32 (o : Operand_) : Operand_ := setOffsetLo32 0 o.

Definition setAbs (o : Operand_) : Operand_ := setAddrType kAddrTypeAbs o.
Definition setRel (o : Operand_) : Operand_ := setAddrType kAddrTypeRel o.

Definition setRegHome (o : Operand_) : Operand_ :=
  set_signature (Z.lor (_signature o) kSignatureMemRegHomeFlag) o.
Definition clearRegHome (o : Operand_) : Operand_ :=
  set_signature (Z.land (_signature o) (not32 kSignatureMemRegHomeFlag)) o.

Definition hasBaseOrIndex (o : Operand_) : bool :=
  negb (Z.land (_signature o) kSignatureMemBaseIndexMask =? 0).
Definition hasBaseAndIndex (o : Operand_) : bool :=
  negb (Z.land (_signature o) kSignatureMemBaseTypeMask =? 0) &&
  negb (Z.land (_signature o) kSignatureMemIndexTypeMask =? 0).
Definition hasIndexReg (o : Operand_) : bool :=
  Z.land (_signature o) kSignatureMemIndexTypeMask >?
  u32 (Z.shiftl Label.kLabelTag kSignatureMemIndexTypeShift).

(** [setBase(const BaseReg&)] and [setIndex(const BaseReg&)]. *)
Definition setBase (base : Operand_) (o : Operand_) : Operand_ :=
  _setBase (BaseReg.type base) (id base) o.
Definition setIndex (index : Operand_) (o : Operand_) : Operand_ :=
  _setIndex (BaseReg.type index) (id index) o.

End BaseMem.

(* ------------------------------------------------------------------ *)
(** ** [Imm] *)

Module Imm.

(** [Imm()]. *)
Definition Imm : Operand_ := Operand_init kOpImm 0 0 0.
(** [Imm(int64_t val)]. *)
Definition ofInt64 (val : Z) : Operand_ :=
  Operand_init kOpImm 0 (Support.unpackU32At0 val) (Support.unpackU32At1 val).

Definition isInt8 (o : Operand_) : bool := Support.isInt8 (i64 (_data64 o)).
Definition isUInt8 (o : Operand_) : bool := Support.isUInt8 (i64 (_data64 o)).
Definition isInt16 (o : Operand_) : bool := Support.isInt16 (i64 (_data64 o)).
Definition isUInt16 (o : Operand_) : bool := Support.isUInt16 (i64 (_data64 o)).
Definition isInt32 (o : Operand_) : bool := Support.isInt32 (i64 (_data64 o)).
Definition isUInt32 (o : Operand_) : bool := Support.isUInt32 (i64 (_data64 o)).

(** The setters; each takes a value of its C++ parameter type. *)
Definition setI8 (val : Z) (o : Operand_) : Operand_ := set_data64 (u64 (i64 val)) o.
Definition setU8 (val : Z) (o : Operand_) : Operand_ := set_data64 (u64 val) o.
Definition setI16 (val : Z) (o : Operand_) : Operand_ := set_data64 (u64 (i64 val)) o.
Definition setU16 (val : Z) (o : Operand_) : Operand_ := set_data64 (u64 val) o.
Definition setI32 (val : Z) (o : Operand_) : Operand_ := set_data64 (u64 (i64 val)) o.
Definition setU32 (val : Z) (o : Operand_) : Operand_ := set_data64 (u64 val) o.
Definition setU64 (val : Z) (o : Operand_) : Operand_ := set_data64 val o.

Definition zeroExtend8Bits (o : Operand_) : Operand_ :=
  set_data64 (Z.land (_data64 o) 0x000000FF) o.
Definition zeroExtend16Bits (o : Operand_) : Operand_ :=
  set_data64 (Z.land (_data64 o) 0x0000FFFF) o.
Definition zeroExtend32Bits (o : Operand_) : Operand_ :=
  set_data64 (Z.land (_data64 o) 0xFFFFFFFF) o.

(** The views of the payload. *)
Definition i32Lo (o : Operand_) : Z := i32 (Z.land (_data64 o) 0xFFFFFFFF).
Definition i32Hi (o : Operand_) : Z := i32 (Z.shiftr (_data64 o) 32).
Definition u32Lo (o : Operand_) : Z := u32 (Z.land (_data64 o) 0xFFFFFFFF).
Definition u32Hi (o : Operand_) : Z := u32 (Z.shiftr (_data64 o) 32).
Definition i8 (o : Operand_) : Z := i8 (Z.land (_data64 o) 0xFF).
Definition u8 (o : Operand_) : Z := u8 (Z.land (_data64 o) 0xFF).
Definition i16 (o : Operand_) : Z := i16 (Z.land (_data64 o) 0xFFFF).
Definition u16 (o : Operand_) : Z := u16 (Z.land (_data64 o) 0xFFFF).
Definition i32 (o : Operand_) : Z := i32 (Z.land (_data64 o) 0xFFFFFFFF).
Definition u32 (o : Operand_) : Z := u32 (Z.land (_data64 o) 0xFFFFFFFF).

Definition signExtend8Bits (o : Operand_) : Operand_ :=
  set_data64 (u64 (i64 (i8 o))) o.
Definition signExtend16Bits (o : Operand_) : Operand_ :=
  set_data64 (u64 (i64 (i16 o))) o.
Definition signExtend32Bits (o : Operand_) : Operand_ :=
  set_data64 (u64 (i64 (i32 o))) o.

Definition setI64 (val : Z) (o : Operand_) : Operand_ := set_data64 (u64 val) o.
Definition i64 (o : Operand_) : Z := i64 (_data64 o).
Definition u64 (o : Operand_) : Z := _data64 o.

End Imm.

(** The answers of the six fit predicates of an immediate, in the order
    [isInt8], [isUInt8], [isInt16], [isUInt16], [isInt32], [isUInt32]. *)
Definition fits (o : Operand_) : list bool :=
  [Imm.isInt8 o; Imm.isUInt8 o; Imm.isInt16 o; Imm.isUInt16 o;
   Imm.isInt32 o; Imm.isUInt32 o].

(* ------------------------------------------------------------------ *)
(** ** [test/asmjit_test_instinfo.cpp] *)

(** [accessLetter(r, w)]. *)
Definition accessLetter (r w : bool) : ascii :=
  if r && w then "X"%char
  else if r then "R"%char
  else if w then "W"%char
  else "_"%char.

(* ------------------------------------------------------------------ *)
(** ** Which [reset] a call reaches *)

(** The static class of the object [reset()] is called on.  [Label] and
    [BaseMem] declare a [reset] of their own; [Operand], [BaseReg] and [Imm]
    inherit the one of [Operand_]. *)
Inductive OperandClass : Type :=
  | ClsOperand
  | ClsBaseReg
  | ClsBaseMem
  | ClsImm
  | ClsLabel.

Definition resetOf (c : OperandClass) (o : Operand_) : Operand_ :=
  match c with
  | ClsLabel => Label.reset o
  | ClsBaseMem => BaseMem.reset o
  | ClsOperand | ClsBaseReg | ClsImm => reset o
  end.

(** The fields of the signature [_setSignaturePart] is asked to write. *)
Inductive SigField : Type :=
  | FOp
  | FRegType
  | FRegGroup
  | FMemAddrType
  | FSize.

Definition fieldMask (f : SigField) : Z :=
  match f with
  | FOp => kSignatureOpMask
  | FRegType => kSignatureRegTypeMask
  | FRegGroup => kSignatureRegGroupMask
  | FMemAddrType => kSignatureMemAddrTypeMask
  | FSize => kSignatureSizeMask
  end.

Definition fieldShift (f : SigField) : Z :=
  match f with
  | FOp => kSignatureOpShift
  | FRegType => kSignatureRegTypeShift
  | FRegGroup => kSignatureRegGroupShift
  | FMemAddrType => kSignatureMemAddrTypeShift
  | FSize => kSignatureSizeShift
  end.

(** The width of each field, as the comments of [enum SignatureBits] give it. *)
Definition fieldWidth (f : SigField) : Z :=
  match f with
  | FOp => 3
  | FRegType => 5
  | FRegGroup => 4
  | FMemAddrType => 2
  | FSize => 8
  end.

(** The decomposed fields [BaseMem(const Decomposed&)] is meant for: each
    type in its five bits, the size in its byte, the ids and the offset in
    their C++ types, and flags that keep clear of the kind, the two types
    and the size. *)
Definition validDecomposed (d : BaseMem.Decomposed) : Prop :=
  0 <= BaseMem.d_baseType d < 2 ^ 5 /\
  0 <= BaseMem.d_indexType d < 2 ^ 5 /\
  uint32 (BaseMem.d_baseId d) /\
  uint32 (BaseMem.d_indexId d) /\
  int32 (BaseMem.d_offset d) /\
  0 <= BaseMem.d_size d < 2 ^ 8 /\
  uint32 (BaseMem.d_flags d) /\
  Z.land (BaseMem.d_flags d)
         (Z.lor (Z.lor (Z.lor kSignatureOpMask kSignatureMemBaseTypeMask)
                       kSignatureMemIndexTypeMask)
                kSignatureSizeMask) = 0.

(** The fields of the signature of a memory operand. *)
Inductive MemField : Type :=
  | MOp
  | MBaseType
  | MIndexType
  | MAddrType
  | MRegHome
  | MSize.

Definition memFieldMask (f : MemField) : Z :=
  match f with
  | MOp => kSignatureOpMask
  | MBaseType => kSignatureMemBaseTypeMask
  | MIndexType => kSignatureMemIndexTypeMask
  | MAddrType => kSignatureMemAddrTypeMask
  | MRegHome => kSignatureMemRegHomeFlag
  | MSize => kSignatureSizeMask
  end.

Definition memFieldShift (f : MemField) : Z :=
  match f with
  | MOp => kSignatureOpShift
  | MBaseType => kSignatureMemBaseTypeShift
  | MIndexType => kSignatureMemIndexTypeShift
  | MAddrType => kSignatureMemAddrTypeShift
  | MRegHome => kSignatureMemRegHomeShift
  | MSize => kSignatureSizeShift
  end.

Definition memFieldWidth (f : MemField) : Z :=
  match f with
  | MOp => 3
  | MBaseType => 5
  | MIndexType => 5
  | MAddrType => 2
  | MRegHome => 1
  | MSize => 8
  end.

(* ================================================================== *)
(** * Properties *)

(* ------------------------------------------------------------------ *)
(** ** Bits of the fixed-width operations *)

Lemma testbit_u32 (x n : Z) :
  Z.testbit (u32 x) n = (n <? 32) && Z.testbit x n.
Proof. unfold u32. apply Z.testbit_mod_pow2. lia. Qed.

Lemma testbit_not32 (x n : Z) :
  0 <= n -> Z.testbit (not32 x) n = (n <? 32) && negb (Z.testbit x n).
Proof.
  intros Hn. unfold not32. rewrite testbit_u32, Z.lnot_spec by assumption.
  reflexivity.
Qed.

Lemma testbit_high (w v n : Z) :
  0 <= w -> 0 <= v < 2 ^ w -> w <= n -> Z.testbit v n = false.
Proof.
  intros Hw Hv Hn. rewrite <- (Z.mod_small v (2 ^ w)) by assumption.
  apply Z.mod_pow2_bits_high. lia.
Qed.

Lemma bounded_of_bits (w v : Z) :
  0 <= w -> 0 <= v ->
  (forall n, w <= n -> Z.testbit v n = false) -> 0 <= v < 2 ^ w.
Proof.
  intros Hw Hv Hbits.
  assert (E : v mod 2 ^ w = v).
  { apply Z.bits_inj'. intros n Hn. rewrite Z.testbit_mod_pow2 by assumption.
    destruct (Z.ltb_spec n w) as [Hlt | Hge]; [reflexivity |].
    rewrite Hbits by assumption. reflexivity. }
  rewrite <- E. apply Z.mod_pos_bound. lia.
Qed.

Lemma u32_range (x : Z) : uint32 (u32 x).
Proof. unfold uint32, u32. apply Z.mod_pos_bound. lia. Qed.

Lemma u32_small (x : Z) : uint32 x -> u32 x = x.
Proof. unfold uint32, u32. intros H. apply Z.mod_small. assumption. Qed.

Lemma u64_small (x : Z) : uint64 x -> u64 x = x.
Proof. unfold uint64, u64. intros H. apply Z.mod_small. assumption. Qed.

Lemma i32_small (x : Z) : int32 x -> i32 x = x.
Proof. unfold int32, i32. intros H. rewrite Z.mod_small; lia. Qed.

(** Where the mathematical sum of two [int64_t] is representable, the
    two's-complement sum is that sum. *)
Lemma i64_exact (x : Z) : int64 x -> i64 x = x.
Proof. unfold int64, i64. intros H. rewrite Z.mod_small; lia. Qed.

Lemma i64_range (x : Z) : int64 (i64 x).
Proof.
  unfold int64, i64.
  pose proof (Z.mod_pos_bound (x + 2 ^ 63) (2 ^ 64)). lia.
Qed.

Lemma u64_i64 (x : Z) : u64 (i64 x) = u64 x.
Proof.
  unfold u64, i64.
  rewrite Zminus_mod_idemp_l.
  replace (x + 2 ^ 63 - 2 ^ 63) with x by lia. reflexivity.
Qed.

Lemma i32_u32 (x : Z) : i32 (u32 x) = i32 x.
Proof.
  unfold u32, i32. rewrite Zplus_mod_idemp_l. reflexivity.
Qed.

(** Two words side by side: the bitwise or is the sum. *)
Lemma lor_words (lo hi : Z) :
  uint32 lo -> Z.lor lo (Z.shiftl hi 32) = lo + 2 ^ 32 * hi.
Proof.
  intros Hlo.
  assert (D : Z.land lo (Z.shiftl hi 32) = 0).
  { apply Z.bits_inj'. intros n Hn.
    rewrite Z.land_spec, Z.bits_0.
    destruct (Z.ltb_spec n 32) as [Hlt | Hge].
    - rewrite Z.shiftl_spec_low by assumption. apply andb_false_r.
    - rewrite (testbit_high 32 lo n) by (assumption || lia). reflexivity. }
  rewrite <- Z.lxor_lor by assumption.
  rewrite <- Z.add_nocarry_lxor by assumption.
  rewrite Z.shiftl_mul_pow2 by lia. lia.
Qed.

Lemma land_low32 (x : Z) : Z.land x 0xFFFFFFFF = x mod 2 ^ 32.
Proof. change 0xFFFFFFFF with (Z.ones 32). apply Z.land_ones. lia. Qed.

Lemma shiftr_high32 (x : Z) : Z.shiftr x 32 = x / 2 ^ 32.
Proof. apply Z.shiftr_div_pow2. lia. Qed.

(* ------------------------------------------------------------------ *)
(** ** One field of the signature *)

Section Field.

Variables w s mask : Z.
Hypothesis Hs : 0 <= s.
Hypothesis Hw : 0 < w.
Hypothesis Hsw : s + w <= 32.
Hypothesis Hmask : mask = Z.shiftl (Z.ones w) s.
Hypothesis Hctz : Support.constCtz mask = s.

Lemma testbit_mask (n : Z) :
  0 <= n -> Z.testbit mask n = (s <=? n) && (n <? s + w).
Proof.
  intros Hn. rewrite Hmask, Z.shiftl_spec by assumption.
  destruct (Z.leb_spec s n) as [Hle | Hlt].
  - rewrite Z.testbit_ones_nonneg by lia.
    destruct (Z.ltb_spec (n - s) w), (Z.ltb_spec n (s + w)); simpl; lia.
  - rewrite Z.testbit_neg_r by lia. reflexivity.
Qed.

Lemma testbit_getPart (sig n : Z) :
  0 <= n -> Z.testbit (getPart mask sig) n = Z.testbit sig (n + s) && (n <? w).
Proof.
  intros Hn. unfold getPart. rewrite Hctz.
  rewrite Z.land_spec, !Z.shiftr_spec by assumption.
  rewrite testbit_mask by lia.
  destruct (Z.leb_spec s (n + s)), (Z.ltb_spec (n + s) (s + w)), (Z.ltb_spec n w);
    simpl; try lia; reflexivity.
Qed.

Lemma testbit_setPart (value sig n : Z) :
  0 <= n ->
  Z.testbit (setPart mask value sig) n =
  (Z.testbit sig n && (n <? 32) && negb ((s <=? n) && (n <? s + w)))
  || ((n <? 32) && Z.testbit value (n - s)).
Proof.
  intros Hn. unfold setPart. rewrite Hctz.
  rewrite Z.lor_spec, Z.land_spec, testbit_not32, testbit_u32 by assumption.
  rewrite testbit_mask, Z.shiftl_spec by assumption.
  rewrite andb_assoc. reflexivity.
Qed.

Lemma getPart_range (sig : Z) : 0 <= getPart mask sig < 2 ^ w.
Proof.
  unfold getPart. rewrite Hctz.
  assert (E : Z.shiftr mask s = Z.ones w).
  { rewrite Hmask. apply Z.bits_inj'. intros n Hn.
    rewrite Z.shiftr_spec, Z.shiftl_spec by lia.
    f_equal. lia. }
  rewrite E, Z.land_ones by lia. apply Z.mod_pos_bound. lia.
Qed.

(** What the assertion of [_setSignaturePart] says of a [uint32_t]. *)
Lemma fitsPart_spec (value : Z) :
  uint32 value -> (fitsPart mask value = true <-> 0 <= value < 2 ^ w).
Proof.
  intros Hv. unfold fitsPart. rewrite Hctz, Z.eqb_eq.
  assert (E : Z.shiftr mask s = Z.ones w).
  { rewrite Hmask. apply Z.bits_inj'. intros n Hn.
    rewrite Z.shiftr_spec, Z.shiftl_spec by lia.
    f_equal. lia. }
  rewrite E. split.
  - intros H0. apply bounded_of_bits; [lia | apply Hv |].
    intros n Hn.
    destruct (Z.ltb_spec n 32) as [Hlt | Hge].
    + assert (B : Z.testbit (Z.land value (not32 (Z.ones w))) n = false)
        by (rewrite H0; apply Z.bits_0).
      rewrite Z.land_spec, testbit_not32, Z.testbit_ones_nonneg in B by lia.
      destruct (Z.ltb_spec n 32), (Z.ltb_spec n w); try lia.
      simpl in B. rewrite andb_true_r in B. exact B.
    + apply (testbit_high 32); [lia | apply Hv | assumption].
  - intros Hr. apply Z.bits_inj'. intros n Hn.
    rewrite Z.land_spec, testbit_not32, Z.testbit_ones_nonneg, Z.bits_0 by lia.
    destruct (Z.ltb_spec n w) as [Hlt | Hge].
    + simpl. rewrite andb_false_r. apply andb_false_r.
    + rewrite (testbit_high w value n) by (lia || assumption). reflexivity.
Qed.

(** Reading the field back gives what was written. *)
Lemma getPart_setPart (value sig : Z) :
  0 <= value < 2 ^ w -> getPart mask (setPart mask value sig) = value.
Proof.
  intros Hv. apply Z.bits_inj'. intros n Hn.
  rewrite testbit_getPart, testbit_setPart by lia.
  replace (n + s - s) with n by lia.
  destruct (Z.ltb_spec n w) as [Hlt | Hge].
  - destruct (Z.leb_spec s (n + s)), (Z.ltb_spec (n + s) (s + w)),
      (Z.ltb_spec (n + s) 32); try lia.
    simpl. rewrite andb_false_r, andb_true_r. reflexivity.
  - rewrite (testbit_high w value n) by (lia || assumption).
    apply andb_false_r.
Qed.

(** The bits outside the mask are the ones of before. *)
Lemma setPart_outside (value sig : Z) :
  0 <= value < 2 ^ w ->
  Z.land (setPart mask value sig) (not32 mask) = Z.land sig (not32 mask).
Proof.
  intros Hv. apply Z.bits_inj'. intros n Hn.
  rewrite !Z.land_spec, testbit_setPart, testbit_not32, testbit_mask by assumption.
  destruct (Z.ltb_spec n 32) as [Hlt | Hge].
  - destruct (Z.leb_spec s n) as [Hle | Hb]; simpl.
    + destruct (Z.ltb_spec n (s + w)) as [Hin | Hout]; simpl.
      * rewrite !andb_false_r. reflexivity.
      * rewrite (testbit_high w value (n - s)) by (lia || assumption).
        rewrite !andb_true_r, orb_false_r. reflexivity.
    + rewrite (Z.testbit_neg_r value (n - s)) by lia.
      rewrite !andb_true_r, orb_false_r. reflexivity.
  - simpl. rewrite !andb_false_r. reflexivity.
Qed.

Lemma setPart_range (value sig : Z) :
  uint32 sig -> uint32 (setPart mask value sig).
Proof.
  intros Hsig. apply bounded_of_bits; [lia | |].
  - unfold setPart. apply Z.lor_nonneg. split.
    + apply Z.land_nonneg. left. apply Hsig.
    + apply u32_range.
  - intros n Hn. rewrite testbit_setPart by lia.
    destruct (Z.ltb_spec n 32); lia.
Qed.

(** Another field, lying wholly below or wholly above this one, reads the
    same after the write. *)
Lemma getPart_setPart_other (w' s' mask' value sig : Z) :
  0 <= s' -> 0 < w' -> s' + w' <= 32 ->
  mask' = Z.shiftl (Z.ones w') s' -> Support.constCtz mask' = s' ->
  s' + w' <= s \/ s + w <= s' ->
  0 <= value < 2 ^ w ->
  getPart mask' (setPart mask value sig) = getPart mask' sig.
Proof.
  intros Hs' Hw' Hsw' Hmask' Hctz' Hdisj Hv.
  apply Z.bits_inj'. intros n Hn.
  unfold getPart. rewrite Hctz'.
  rewrite !Z.land_spec, !Z.shiftr_spec by assumption.
  assert (E : Z.testbit mask' (n + s') = (n <? w')).
  { rewrite Hmask', Z.shiftl_spec by lia.
    replace (n + s' - s') with n by lia.
    apply Z.testbit_ones_nonneg; lia. }
  rewrite E. destruct (Z.ltb_spec n w') as [Hlt | Hge].
  - rewrite !andb_true_r, testbit_setPart by lia.
    destruct (Z.ltb_spec (n + s') 32); try lia.
    destruct Hdisj as [Hbelow | Habove].
    + destruct (Z.leb_spec s (n + s')); try lia. simpl.
      rewrite (Z.testbit_neg_r value) by lia.
      rewrite !andb_true_r, orb_false_r. reflexivity.
    + destruct (Z.leb_spec s (n + s')), (Z.ltb_spec (n + s') (s + w)); try lia.
      simpl.
      rewrite (testbit_high w value) by (lia || assumption).
      rewrite !andb_true_r, orb_false_r. reflexivity.
  - rewrite !andb_false_r. reflexivity.
Qed.

Lemma getPart_lor (a b : Z) :
  getPart mask (Z.lor a b) = Z.lor (getPart mask a) (getPart mask b).
Proof.
  apply Z.bits_inj'. intros n Hn.
  rewrite Z.lor_spec, !testbit_getPart, Z.lor_spec by assumption.
  apply andb_orb_distrib_l.
Qed.

(** The field is zero exactly when the signature has no bit under the mask. *)
Lemma getPart_eq0_iff (sig : Z) :
  getPart mask sig = 0 <-> Z.land sig mask = 0.
Proof.
  split; intros H; apply Z.bits_inj'; intros n Hn; rewrite Z.bits_0.
  - rewrite Z.land_spec, testbit_mask by assumption.
    destruct (Z.leb_spec s n) as [Hle | Hlt];
      [| simpl; apply andb_false_r].
    destruct (Z.ltb_spec n (s + w)) as [Hin | Hout];
      [| simpl; apply andb_false_r].
    assert (B : Z.testbit (getPart mask sig) (n - s) = false)
      by (rewrite H; apply Z.bits_0).
    rewrite testbit_getPart in B by lia.
    replace (n - s + s) with n in B by lia.
    destruct (Z.ltb_spec (n - s) w); try lia.
    rewrite andb_true_r in B. rewrite B. reflexivity.
  - rewrite testbit_getPart by assumption.
    destruct (Z.ltb_spec n w) as [Hlt | Hge]; [| apply andb_false_r].
    assert (B : Z.testbit (Z.land sig mask) (n + s) = false)
      by (rewrite H; apply Z.bits_0).
    rewrite Z.land_spec, testbit_mask in B by lia.
    destruct (Z.leb_spec s (n + s)), (Z.ltb_spec (n + s) (s + w)); try lia.
    simpl in B. rewrite andb_true_r in *. exact B.
Qed.

(** A value shifted to this field is read back as it is. *)
Lemma getPart_shifted (value : Z) :
  0 <= value < 2 ^ w -> getPart mask (u32 (Z.shiftl value s)) = value.
Proof.
  intros Hv. apply Z.bits_inj'. intros n Hn.
  rewrite testbit_getPart, testbit_u32, Z.shiftl_spec by lia.
  replace (n + s - s) with n by lia.
  destruct (Z.ltb_spec n w) as [Hlt | Hge].
  - destruct (Z.ltb_spec (n + s) 32); try lia.
    simpl. apply andb_true_r.
  - rewrite (testbit_high w value n) by (lia || assumption).
    rewrite andb_false_r. reflexivity.
Qed.

(** A value shifted to a field that lies apart has no bit under this mask. *)
Lemma land_shifted_other (w' s' value : Z) :
  0 <= s' -> 0 <= w' -> s' + w' <= s \/ s + w <= s' ->
  0 <= value < 2 ^ w' ->
  Z.land (u32 (Z.shiftl value s')) mask = 0.
Proof.
  intros Hs' Hw' Hdisj Hv. apply Z.bits_inj'. intros n Hn.
  rewrite Z.land_spec, testbit_u32, Z.shiftl_spec, testbit_mask, Z.bits_0
    by assumption.
  destruct (Z.leb_spec s n) as [Hle | Hlt]; [| simpl; apply andb_false_r].
  destruct (Z.ltb_spec n (s + w)) as [Hin | Hout]; [| simpl; apply andb_false_r].
  destruct Hdisj as [Hbelow | Habove].
  - rewrite (testbit_high w' value (n - s')) by (lia || assumption).
    rewrite andb_false_r. reflexivity.
  - rewrite (Z.testbit_neg_r value (n - s')) by lia.
    rewrite andb_false_r. reflexivity.
Qed.

Lemma getPart_clear (x : Z) : Z.land x mask = 0 -> getPart mask x = 0.
Proof. apply getPart_eq0_iff. Qed.

Lemma getPart_shifted_other (w' s' value : Z) :
  0 <= s' -> 0 <= w' -> s' + w' <= s \/ s + w <= s' ->
  0 <= value < 2 ^ w' ->
  getPart mask (u32 (Z.shiftl value s')) = 0.
Proof.
  intros Hs' Hw' Hdisj Hv. apply getPart_clear.
  apply (land_shifted_other w' s'); assumption.
Qed.

End Field.

(* ------------------------------------------------------------------ *)
(** ** The fields of the signature *)

(** Each mask is its width of ones at its shift, and the trailing zero count
    of the mask is that shift. *)
Lemma field_shape (f : SigField) :
  0 <= fieldShift f /\ 0 < fieldWidth f /\ fieldShift f + fieldWidth f <= 32 /\
  fieldMask f = Z.shiftl (Z.ones (fieldWidth f)) (fieldShift f) /\
  Support.constCtz (fieldMask f) = fieldShift f.
Proof.
  destruct f; repeat split; try reflexivity; vm_compute; congruence.
Qed.

Lemma field_apart (f g : SigField) :
  g <> f ->
  fieldShift g + fieldWidth g <= fieldShift f \/
  fieldShift f + fieldWidth f <= fieldShift g.
Proof.
  intros Hne.
  destruct f, g; try congruence;
    solve [left; vm_compute; congruence | right; vm_compute; congruence].
Qed.

Lemma fits_field (f : SigField) (value : Z) :
  uint32 value ->
  (fitsPart (fieldMask f) value = true <-> 0 <= value < 2 ^ fieldWidth f).
Proof.
  destruct (field_shape f) as (Hs & Hw & Hsw & Hmask & Hctz).
  apply (fitsPart_spec _ _ _ Hs Hw Hmask Hctz).
Qed.

Lemma opType_land (sig : Z) : getPart kSignatureOpMask sig = Z.land sig 7.
Proof. unfold getPart. change (Support.constCtz kSignatureOpMask) with 0.
  rewrite !Z.shiftr_0_r. reflexivity. Qed.

(** C6. Writing one of the fields kind, register type, register group,
    memory address kind and size with [_setSignaturePart], the value fitting
    the field as the assertion asks, gives a signature from which that field
    reads back as the value written, every other of these fields reads as
    before, no bit outside the mask has changed, and the id and the payload
    are untouched. *)
Theorem C6_signature_field_isolation (f : SigField) (value : Z) (o : Operand_) :
  uint32 value ->
  fitsPart (fieldMask f) value = true ->
  _getSignaturePart (fieldMask f) (_setSignaturePart (fieldMask f) value o) = value /\
  (forall g : SigField,
     g = f \/
     _getSignaturePart (fieldMask g) (_setSignaturePart (fieldMask f) value o) =
     _getSignaturePart (fieldMask g) o) /\
  Z.land (_signature (_setSignaturePart (fieldMask f) value o)) (not32 (fieldMask f)) =
  Z.land (_signature o) (not32 (fieldMask f)) /\
  _baseId (_setSignaturePart (fieldMask f) value o) = _baseId o /\
  _data32_0 (_setSignaturePart (fieldMask f) value o) = _data32_0 o /\
  _data32_1 (_setSignaturePart (fieldMask f) value o) = _data32_1 o.
Proof.
  intros Hv Hfit.
  apply (fits_field f value Hv) in Hfit.
  destruct (field_shape f) as (Hs & Hw & Hsw & Hmask & Hctz).
  unfold _getSignaturePart, _setSignaturePart. simpl.
  repeat split.
  - apply (getPart_setPart _ _ _ Hs Hw Hsw Hmask Hctz). exact Hfit.
  - intros g.
    assert (D : {g = f} + {g <> f}) by decide equality.
    destruct D as [Heq | Hne]; [left; exact Heq | right].
    destruct (field_shape g) as (Hs' & Hw' & Hsw' & Hmask' & Hctz').
    apply (getPart_setPart_other _ _ _ Hs Hw Hsw Hmask Hctz
             _ _ _ _ _ Hs' Hw' Hsw' Hmask' Hctz' (field_apart f g Hne) Hfit).
  - apply (setPart_outside _ _ _ Hw Hmask Hctz). exact Hfit.
Qed.

Lemma C6_signature_field_isolation_witness :
  uint32 16 /\
  fitsPart (fieldMask FSize) 16 = true /\
  _getSignaturePart (fieldMask FSize)
    (_setSignaturePart (fieldMask FSize) 16 (BaseReg.make 0x08000A31 3)) = 16 /\
  _getSignaturePart (fieldMask FRegGroup)
    (_setSignaturePart (fieldMask FSize) 16 (BaseReg.make 0x08000A31 3)) =
  _getSignaturePart (fieldMask FRegGroup) (BaseReg.make 0x08000A31 3).
Proof.
  assert (H1 : uint32 16) by (unfold uint32; lia).
  assert (H2 : fitsPart (fieldMask FSize) 16 = true) by reflexivity.
  pose proof (C6_signature_field_isolation FSize 16 (BaseReg.make 0x08000A31 3) H1 H2)
    as (Hget & Hothers & _).
  destruct (Hothers FRegGroup) as [E | E]; [discriminate E |].
  exact (conj H1 (conj H2 (conj Hget E))).
Defined.

Ltac shape := first [lia | reflexivity].

(** A value shifted by three or more leaves the kind bits clear. *)
Lemma land7_shifted (value s' : Z) :
  3 <= s' -> Z.land (u32 (Z.shiftl value s')) 7 = 0.
Proof.
  intros Hs'. apply Z.bits_inj'. intros n Hn.
  rewrite Z.land_spec, testbit_u32, Z.shiftl_spec, Z.bits_0 by assumption.
  change 7 with (Z.ones 3). rewrite Z.testbit_ones_nonneg by lia.
  destruct (Z.ltb_spec n 3) as [Hlt | Hge]; [| apply andb_false_r].
  rewrite (Z.testbit_neg_r value (n - s')) by lia.
  rewrite andb_false_r. reflexivity.
Qed.

Lemma land_lor4_eq0 (x a b c d : Z) :
  Z.land x (Z.lor (Z.lor (Z.lor a b) c) d) = 0 ->
  Z.land x a = 0 /\ Z.land x b = 0 /\ Z.land x c = 0 /\ Z.land x d = 0.
Proof.
  intros H. rewrite !Z.land_lor_distr_r in H.
  apply Z.lor_eq_0_iff in H. destruct H as [H Hd].
  apply Z.lor_eq_0_iff in H. destruct H as [H Hc].
  apply Z.lor_eq_0_iff in H. destruct H as [Ha Hb].
  repeat split; assumption.
Qed.

(** The signature [BaseMem(const Decomposed&)] builds, read through the mask
    of a field [w] bits wide at shift [s]. *)
Ltac read_mem_field w s m Hflags :=
  rewrite !(getPart_lor w s m) by shape;
  rewrite (getPart_clear w s m ltac:(shape) ltac:(shape) eq_refl eq_refl _ Hflags);
  rewrite (getPart_shifted w s m) by (shape || assumption);
  rewrite ?(getPart_shifted_other w s m ltac:(shape) ltac:(shape) eq_refl eq_refl 5 3)
    by (shape || assumption);
  rewrite ?(getPart_shifted_other w s m ltac:(shape) ltac:(shape) eq_refl eq_refl 5 8)
    by (shape || assumption);
  rewrite ?(getPart_shifted_other w s m ltac:(shape) ltac:(shape) eq_refl eq_refl 8 24)
    by (shape || assumption);
  change (getPart m kOpMem) with 0;
  rewrite ?Z.lor_0_r, ?Z.lor_0_l.

Lemma ofDecomposed_fields (d : BaseMem.Decomposed) :
  validDecomposed d ->
  getPart kSignatureOpMask (_signature (BaseMem.ofDecomposed d)) = kOpMem /\
  getPart kSignatureMemBaseTypeMask (_signature (BaseMem.ofDecomposed d)) =
    BaseMem.d_baseType d /\
  getPart kSignatureMemIndexTypeMask (_signature (BaseMem.ofDecomposed d)) =
    BaseMem.d_indexType d /\
  getPart kSignatureSizeMask (_signature (BaseMem.ofDecomposed d)) =
    BaseMem.d_size d.
Proof.
  intros (Hbt & Hit & _ & _ & _ & Hsz & _ & Hfl).
  apply land_lor4_eq0 in Hfl. destruct Hfl as (Fop & Fbt & Fit & Fsz).
  unfold BaseMem.ofDecomposed, Operand_init. cbn [_signature].
  change kSignatureMemBaseTypeShift with 3.
  change kSignatureMemIndexTypeShift with 8.
  change kSignatureSizeShift with 24.
  repeat split.
  - rewrite !opType_land, !Z.land_lor_distr_l.
    change kSignatureOpMask with 7 in Fop.
    rewrite Fop, !land7_shifted by lia. reflexivity.
  - read_mem_field 5 3 kSignatureMemBaseTypeMask Fbt. reflexivity.
  - read_mem_field 5 8 kSignatureMemIndexTypeMask Fit. reflexivity.
  - read_mem_field 8 24 kSignatureSizeMask Fsz. reflexivity.
Qed.

(* ------------------------------------------------------------------ *)
(** ** Memory operands from decomposed fields *)

(** C3. A memory operand built by [BaseMem(const Decomposed&)] from valid
    decomposed fields gives each of them back: [baseType], [baseId],
    [indexType], [indexId], [offsetLo32] and [size] return the base type,
    base id, index type, index id, signed 32-bit offset and size it was
    built from. *)
Theorem C3_decomposed_roundtrip (d : BaseMem.Decomposed) :
  validDecomposed d ->
  BaseMem.baseType (BaseMem.ofDecomposed d) = BaseMem.d_baseType d /\
  BaseMem.baseId (BaseMem.ofDecomposed d) = BaseMem.d_baseId d /\
  BaseMem.indexType (BaseMem.ofDecomposed d) = BaseMem.d_indexType d /\
  BaseMem.indexId (BaseMem.ofDecomposed d) = BaseMem.d_indexId d /\
  BaseMem.offsetLo32 (BaseMem.ofDecomposed d) = BaseMem.d_offset d /\
  size (BaseMem.ofDecomposed d) = BaseMem.d_size d.
Proof.
  intros Hd.
  destruct (ofDecomposed_fields d Hd) as (_ & Hbt & Hit & Hsz).
  destruct Hd as (_ & _ & _ & _ & Hoff & _).
  repeat split; try assumption; try reflexivity.
  unfold BaseMem.offsetLo32, BaseMem.ofDecomposed, Operand_init, _mem_offsetLo32.
  cbn [_data32_1]. rewrite i32_u32. apply i32_small. exact Hoff.
Qed.

Lemma C3_decomposed_roundtrip_witness :
  validDecomposed (BaseMem.mkDecomposed 6 5 6 0x10000 (-8) 4 0x6000) /\
  BaseMem.baseType
    (BaseMem.ofDecomposed (BaseMem.mkDecomposed 6 5 6 0x10000 (-8) 4 0x6000)) = 6 /\
  BaseMem.offsetLo32
    (BaseMem.ofDecomposed (BaseMem.mkDecomposed 6 5 6 0x10000 (-8) 4 0x6000)) = -8 /\
  size
    (BaseMem.ofDecomposed (BaseMem.mkDecomposed 6 5 6 0x10000 (-8) 4 0x6000)) = 4.
Proof.
  assert (Hd : validDecomposed (BaseMem.mkDecomposed 6 5 6 0x10000 (-8) 4 0x6000))
    by (vm_compute; repeat split; congruence).
  pose proof (C3_decomposed_roundtrip _ Hd) as (Hbt & _ & _ & _ & Hoff & Hsz).
  exact (conj Hd (conj Hbt (conj Hoff Hsz))).
Defined.

(* ------------------------------------------------------------------ *)
(** ** Operand kinds *)

Lemma opType_kSignature (t : RegTraits) :
  getPart kSignatureOpMask (kSignature t) = kOpReg.
Proof.
  unfold kSignature.
  change (u32 (Z.shiftl kOpReg kSignatureOpShift)) with 1.
  change kSignatureRegTypeShift with 3.
  change kSignatureRegGroupShift with 8.
  change kSignatureSizeShift with 24.
  rewrite opType_land, !Z.land_lor_distr_l, !land7_shifted by lia.
  reflexivity.
Qed.

Lemma isRegOrMem_spec (o : Operand_) :
  isRegOrMem o = (opType o =? kOpReg) || (opType o =? kOpMem).
Proof.
  unfold isRegOrMem, Support.isBetween, kOpReg, kOpMem. lia.
Qed.

(** C7. The kind of a memory operand built from decomposed fields is the
    kind of a register operand built from a register-traits signature plus
    one ([kOpMem] is [kOpReg + 1]); [isRegOrMem] holds of both, and of any
    operand it is true exactly when the kind is register or memory, hence
    false for the kinds none, immediate and label. *)
Theorem C7_kind_adjacency (d : BaseMem.Decomposed) (t : RegTraits) (rId : Z)
    (o : Operand_) :
  validDecomposed d ->
  kOpMem = kOpReg + 1 /\
  opType (BaseMem.ofDecomposed d) = opType (BaseReg.make (kSignature t) rId) + 1 /\
  isRegOrMem (BaseMem.ofDecomposed d) = true /\
  isRegOrMem (BaseReg.make (kSignature t) rId) = true /\
  isRegOrMem o = (opType o =? kOpReg) || (opType o =? kOpMem) /\
  isRegOrMem o = negb ((opType o =? kOpNone) || (opType o =? kOpImm) ||
                       (opType o =? kOpLabel) || (5 <=? opType o)).
Proof.
  intros Hd.
  destruct (ofDecomposed_fields d Hd) as (Hop & _).
  assert (Hreg : opType (BaseReg.make (kSignature t) rId) = kOpReg)
    by apply opType_kSignature.
  assert (Hmem : opType (BaseMem.ofDecomposed d) = kOpMem) by exact Hop.
  repeat split.
  - rewrite Hmem, Hreg. reflexivity.
  - rewrite isRegOrMem_spec, Hmem. reflexivity.
  - rewrite isRegOrMem_spec, Hreg. reflexivity.
  - apply isRegOrMem_spec.
  - rewrite isRegOrMem_spec.
    assert (Hr : 0 <= opType o < 2 ^ 3)
      by (apply (getPart_range 3 0 kSignatureOpMask); shape).
    unfold kOpNone, kOpReg, kOpMem, kOpImm, kOpLabel. lia.
Qed.

Lemma C7_kind_adjacency_witness :
  validDecomposed (BaseMem.mkDecomposed 6 5 0 0 16 8 0) /\
  opType (BaseMem.ofDecomposed (BaseMem.mkDecomposed 6 5 0 0 16 8 0)) =
  opType (BaseReg.make
            (kSignature (mkRegTraits 1 16 0 BaseReg.kTypeGp64 BaseReg.kGroupGp 8)) 5) + 1 /\
  isRegOrMem (Imm.ofInt64 42) =
  (opType (Imm.ofInt64 42) =? kOpReg) || (opType (Imm.ofInt64 42) =? kOpMem).
Proof.
  assert (Hd : validDecomposed (BaseMem.mkDecomposed 6 5 0 0 16 8 0))
    by (vm_compute; repeat split; congruence).
  pose proof (C7_kind_adjacency _
                (mkRegTraits 1 16 0 BaseReg.kTypeGp64 BaseReg.kGroupGp 8) 5
                (Imm.ofInt64 42) Hd) as (_ & Hadj & _ & _ & Hiff & _).
  exact (conj Hd (conj Hadj Hiff)).
Defined.

(* ------------------------------------------------------------------ *)
(** ** The two encodings of the offset *)

Lemma hasBase_isOffset64Bit (o : Operand_) :
  BaseMem.hasBase o = negb (BaseMem.isOffset64Bit o).
Proof.
  unfold BaseMem.hasBase, BaseMem.isOffset64Bit, BaseMem.baseType, _getSignaturePart.
  pose proof (getPart_eq0_iff 5 3 kSignatureMemBaseTypeMask ltac:(shape) ltac:(shape)
                eq_refl eq_refl (_signature o)) as H.
  destruct (Z.eqb_spec (Z.land (_signature o) kSignatureMemBaseTypeMask) 0) as [E | E],
    (Z.eqb_spec (getPart kSignatureMemBaseTypeMask (_signature o)) 0) as [G | G];
    try reflexivity; exfalso; tauto.
Qed.

(** The 64-bit pattern of an absolute address is its two words side by side. *)
Lemma offsetBits64_words (o : Operand_) :
  wf o -> BaseMem.offsetBits64 o = _mem_offsetLo32 o + 2 ^ 32 * _baseId o.
Proof.
  intros (_ & Hb & _ & Hl). unfold BaseMem.offsetBits64, _mem_offsetLo32 in *.
  unfold uint32 in *.
  rewrite (u64_small (_data32_1 o)) by (unfold uint64; lia).
  rewrite (u64_small (_baseId o)) by (unfold uint64; lia).
  rewrite (u64_small (Z.shiftl (_baseId o) 32))
    by (unfold uint64; rewrite Z.shiftl_mul_pow2 by lia; lia).
  apply lor_words. exact Hl.
Qed.

(** The unsigned view of the signed sum is the sum modulo [2^64]. *)
Lemma u64_add_i64 (k a : Z) : u64 (i64 (k + i64 a)) = (a + k) mod 2 ^ 64.
Proof.
  rewrite u64_i64. unfold u64.
  rewrite <- Zplus_mod_idemp_r.
  change (i64 a mod 2 ^ 64) with (u64 (i64 a)).
  rewrite u64_i64. unfold u64.
  rewrite Zplus_mod_idemp_r. f_equal. lia.
Qed.

(** C1. [addOffset] branches on [isOffset64Bit], that is on the absence of a
    base.  Without a base, the operand holding the address [A] in its low
    offset word and its base id word, [addOffset(k)] leaves [(A + k) mod 2^64]
    there: the low word is its low 32 bits and the base id word its high 32
    bits.  With a base, the low offset word becomes the old one plus [k]
    modulo [2^32] and the base id is the one of before.  Signature and index
    id are untouched on both paths. *)
Theorem C1_addOffset_duality (k : Z) (o : Operand_) :
  wf o -> int64 k ->
  BaseMem.hasBase o = negb (BaseMem.isOffset64Bit o) /\
  BaseMem.isOffset64Bit o = (BaseMem.baseType o =? 0) /\
  _signature (BaseMem.addOffset k o) = _signature o /\
  _mem_indexId (BaseMem.addOffset k o) = _mem_indexId o /\
  wf (BaseMem.addOffset k o) /\
  if BaseMem.isOffset64Bit o then
    _mem_offsetLo32 (BaseMem.addOffset k o) =
      ((_mem_offsetLo32 o + 2 ^ 32 * _baseId o + k) mod 2 ^ 64) mod 2 ^ 32 /\
    _baseId (BaseMem.addOffset k o) =
      ((_mem_offsetLo32 o + 2 ^ 32 * _baseId o + k) mod 2 ^ 64) / 2 ^ 32 /\
    _mem_offsetLo32 (BaseMem.addOffset k o) + 2 ^ 32 * _baseId (BaseMem.addOffset k o) =
      (_mem_offsetLo32 o + 2 ^ 32 * _baseId o + k) mod 2 ^ 64
  else
    _mem_offsetLo32 (BaseMem.addOffset k o) = (_mem_offsetLo32 o + k) mod 2 ^ 32 /\
    _baseId (BaseMem.addOffset k o) = _baseId o.
Proof.
  intros Hwf Hk.
  split; [apply hasBase_isOffset64Bit |].
  split; [reflexivity |].
  pose proof (offsetBits64_words o Hwf) as HA.
  destruct Hwf as (Hs & Hb & Hi & Hl).
  unfold BaseMem.addOffset, wf.
  destruct (BaseMem.isOffset64Bit o).
  - cbn [set_baseId set_mem_offsetLo32 _signature _baseId _data32_0 _data32_1
         _mem_indexId _mem_offsetLo32].
    rewrite u64_add_i64, HA, land_low32, shiftr_high32.
    unfold _mem_offsetLo32.
    set (X := (_data32_1 o + 2 ^ 32 * _baseId o + k) mod 2 ^ 64).
    assert (HX : 0 <= X < 2 ^ 64) by (apply Z.mod_pos_bound; lia).
    assert (Hlo : uint32 (X mod 2 ^ 32))
      by (unfold uint32; apply Z.mod_pos_bound; lia).
    assert (Hhi : uint32 (X / 2 ^ 32)).
    { unfold uint32. split.
      - apply Z.div_pos; lia.
      - apply Z.div_lt_upper_bound; lia. }
    rewrite (u32_small _ Hlo), (u32_small _ Hhi).
    repeat split; try reflexivity;
      first [apply Hs | apply Hi | apply Hlo | apply Hhi | idtac].
    pose proof (Z.div_mod X (2 ^ 32)). lia.
  - cbn [set_baseId set_mem_offsetLo32 _signature _baseId _data32_0 _data32_1
         _mem_indexId _mem_offsetLo32].
    rewrite land_low32. unfold _mem_offsetLo32.
    assert (E : u32 (_data32_1 o + u32 (u64 k mod 2 ^ 32)) =
                (_data32_1 o + k) mod 2 ^ 32).
    { unfold u32, u64.
      replace (2 ^ 64) with (2 ^ 32 * 2 ^ 32) by lia.
      rewrite Z.rem_mul_r by lia.
      rewrite (Z.mul_comm (2 ^ 32)), Z_mod_plus_full.
      rewrite !Zmod_mod, Zplus_mod_idemp_r. reflexivity. }
    rewrite E.
    repeat split; try reflexivity;
      first [apply Hs | apply Hb | apply Hi | idtac];
      apply Z.mod_pos_bound; lia.
Qed.

Lemma C1_addOffset_duality_witness :
  wf (mkOperand_ kOpMem 0xFFFFFFFF 0 0xFFFFFFFF) /\ int64 1 /\
  _mem_offsetLo32 (BaseMem.addOffset 1 (mkOperand_ kOpMem 0xFFFFFFFF 0 0xFFFFFFFF)) +
  2 ^ 32 * _baseId (BaseMem.addOffset 1 (mkOperand_ kOpMem 0xFFFFFFFF 0 0xFFFFFFFF)) =
  (0xFFFFFFFF + 2 ^ 32 * 0xFFFFFFFF + 1) mod 2 ^ 64.
Proof.
  assert (Hwf : wf (mkOperand_ kOpMem 0xFFFFFFFF 0 0xFFFFFFFF))
    by (unfold wf, uint32; simpl; unfold kOpMem; lia).
  assert (Hk : int64 1) by (unfold int64; lia).
  pose proof (C1_addOffset_duality 1 _ Hwf Hk) as (_ & _ & _ & _ & _ & H).
  change (BaseMem.isOffset64Bit (mkOperand_ kOpMem 0xFFFFFFFF 0 0xFFFFFFFF))
    with true in H.
  exact (conj Hwf (conj Hk (proj2 (proj2 H)))).
Defined.

(** The boundary cases of the absolute mode, and a wrap in the based one. *)
Example addOffset_abs_zero_minus_one :
  BaseMem.addOffset (-1) (mkOperand_ kOpMem 0 0 0) =
  mkOperand_ kOpMem 0xFFFFFFFF 0 0xFFFFFFFF.
Proof. reflexivity. Qed.

Example addOffset_abs_max_plus_one :
  BaseMem.addOffset 1 (mkOperand_ kOpMem 0xFFFFFFFF 0 0xFFFFFFFF) =
  mkOperand_ kOpMem 0 0 0.
Proof. reflexivity. Qed.

Example addOffset_based_wraps :
  BaseMem.addOffset 1 (BaseMem.ofDecomposed (BaseMem.mkDecomposed 6 5 0 0 (-1) 0 0)) =
  BaseMem.ofDecomposed (BaseMem.mkDecomposed 6 5 0 0 0 0 0).
Proof. reflexivity. Qed.

(** C5. [hasOffset] holds exactly when the low offset word is not zero or,
    the operand having no base, the base id word is not zero; with a base and
    a zero low word it is false whatever the base id. *)
Theorem C5_hasOffset_modes (o : Operand_) :
  wf o ->
  BaseMem.hasOffset o =
    negb (_mem_offsetLo32 o =? 0) ||
    (BaseMem.isOffset64Bit o && negb (_baseId o =? 0)) /\
  (BaseMem.hasOffset o = true <->
   _mem_offsetLo32 o <> 0 \/ (BaseMem.isOffset64Bit o = true /\ _baseId o <> 0)) /\
  BaseMem.hasOffset (set_mem_offsetLo32 0 o) =
    BaseMem.isOffset64Bit o && negb (_baseId o =? 0).
Proof.
  intros (_ & Hb & _ & _).
  assert (E : forall lo,
             negb (Z.lor lo (u32 (Z.land (_baseId o)
                     (Support.bitMaskFromBool (BaseMem.isOffset64Bit o)))) =? 0) =
             negb (lo =? 0) || (BaseMem.isOffset64Bit o && negb (_baseId o =? 0))).
  { intros lo.
    assert (M : u32 (Z.land (_baseId o)
                  (Support.bitMaskFromBool (BaseMem.isOffset64Bit o))) =
                if BaseMem.isOffset64Bit o then _baseId o else 0).
    { destruct (BaseMem.isOffset64Bit o); unfold Support.bitMaskFromBool.
      - rewrite land_low32. change ((_baseId o) mod 2 ^ 32) with (u32 (_baseId o)).
        rewrite (u32_small _ Hb), (u32_small _ Hb). reflexivity.
      - rewrite Z.land_0_r. reflexivity. }
    rewrite M.
    pose proof (Z.lor_eq_0_iff lo (if BaseMem.isOffset64Bit o then _baseId o else 0)) as L.
    destruct (BaseMem.isOffset64Bit o); simpl in *;
      destruct (Z.eqb_spec (Z.lor lo (_baseId o)) 0), (Z.eqb_spec lo 0),
        (Z.eqb_spec (_baseId o) 0), (Z.eqb_spec (Z.lor lo 0) 0);
      simpl; try reflexivity; exfalso; intuition congruence. }
  assert (H1 : BaseMem.hasOffset o =
               negb (_mem_offsetLo32 o =? 0) ||
               (BaseMem.isOffset64Bit o && negb (_baseId o =? 0)))
    by apply E.
  split; [exact H1 |]. split.
  - rewrite H1.
    destruct (Z.eqb_spec (_mem_offsetLo32 o) 0), (Z.eqb_spec (_baseId o) 0),
      (BaseMem.isOffset64Bit o); simpl; intuition congruence.
  - unfold BaseMem.hasOffset.
    change (BaseMem.isOffset64Bit (set_mem_offsetLo32 0 o))
      with (BaseMem.isOffset64Bit o).
    change (_baseId (set_mem_offsetLo32 0 o)) with (_baseId o).
    change (_mem_offsetLo32 (set_mem_offsetLo32 0 o)) with 0.
    rewrite E. reflexivity.
Qed.

Lemma C5_hasOffset_modes_witness :
  wf (BaseMem.ofDecomposed (BaseMem.mkDecomposed 6 5 0 0 0 0 0)) /\
  BaseMem.hasOffset (BaseMem.ofDecomposed (BaseMem.mkDecomposed 6 5 0 0 0 0 0)) =
    false.
Proof.
  assert (Hwf : wf (BaseMem.ofDecomposed (BaseMem.mkDecomposed 6 5 0 0 0 0 0)))
    by (vm_compute; repeat split; congruence).
  exact (conj Hwf (proj1 (C5_hasOffset_modes _ Hwf))).
Defined.

(* ------------------------------------------------------------------ *)
(** ** Physical and virtual register ids *)

Lemma isReg_make (sig rId : Z) :
  isReg (BaseReg.make sig rId) = (getPart kSignatureOpMask sig =? kOpReg).
Proof. reflexivity. Qed.

Lemma phys_virt_exclusive (o : Operand_) : isPhysReg o && isVirtReg o = false.
Proof.
  unfold isPhysReg, isVirtReg. destruct (isReg o); [| reflexivity]. simpl. lia.
Qed.

(** C4. Of a register operand whose id is a physical one, below 255,
    [isPhysReg] holds and [isVirtReg] does not; of one whose id is a virtual
    one, from [kVirtIdMin] to the invalid id less one, [isVirtReg] holds and
    [isPhysReg] does not; of no operand do both hold.  An allocator index
    from 0 to [kVirtIdCount - 1] taken to a virtual id by [indexToVirtId]
    lands in the band of virtual ids and comes back unchanged by
    [virtIdToIndex]. *)
Theorem C4_register_id_space (sig p v i : Z) :
  getPart kSignatureOpMask sig = kOpReg ->
  0 <= p < 255 ->
  kVirtIdMin <= v <= Globals.kInvalidId - 1 ->
  0 <= i <= kVirtIdCount - 1 ->
  (isPhysReg (BaseReg.make sig p) = true /\ isVirtReg (BaseReg.make sig p) = false) /\
  (isPhysReg (BaseReg.make sig v) = false /\ isVirtReg (BaseReg.make sig v) = true) /\
  (forall o : Operand_, isPhysReg o && isVirtReg o = false) /\
  virtIdToIndex (indexToVirtId i) = i /\
  kVirtIdMin <= indexToVirtId i <= kVirtIdMax /\
  isVirtId (indexToVirtId i) = true /\
  kVirtIdMax = Globals.kInvalidId - 1.
Proof.
  intros Hsig Hp Hv Hi.
  unfold isPhysReg, isVirtReg. rewrite !isReg_make, Hsig.
  change (kOpReg =? kOpReg) with true.
  unfold BaseReg.make, Operand_init. cbn [_baseId andb].
  unfold kVirtIdMin, Globals.kInvalidId in Hv.
  change kVirtIdCount with 0xFFFFFEFF in Hi.
  assert (Ev : indexToVirtId i = i + 256).
  { unfold indexToVirtId, u32, kVirtIdMin. apply Z.mod_small. lia. }
  split; [lia |]. split; [lia |].
  split; [intros o; fold (isReg o); fold (isPhysReg o); fold (isVirtReg o);
          apply phys_virt_exclusive |].
  rewrite Ev. unfold virtIdToIndex, isVirtId, kVirtIdMin, kVirtIdMax, Globals.kInvalidId.
  replace (i + 256 - 256) with i by lia.
  change (u32 kVirtIdCount) with 0xFFFFFEFF.
  unfold u32. rewrite Z.mod_small by lia.
  repeat split; lia.
Qed.

Lemma C4_register_id_space_witness :
  getPart kSignatureOpMask 0x08000031 = kOpReg /\
  0 <= 3 < 255 /\
  kVirtIdMin <= 256 <= Globals.kInvalidId - 1 /\
  0 <= 0xFFFFFEFE <= kVirtIdCount - 1 /\
  virtIdToIndex (indexToVirtId 0xFFFFFEFE) = 0xFFFFFEFE.
Proof.
  assert (H1 : getPart kSignatureOpMask 0x08000031 = kOpReg) by reflexivity.
  assert (H2 : 0 <= 3 < 255) by lia.
  assert (H3 : kVirtIdMin <= 256 <= Globals.kInvalidId - 1)
    by (vm_compute; repeat split; congruence).
  assert (H4 : 0 <= 0xFFFFFEFE <= kVirtIdCount - 1)
    by (vm_compute; repeat split; congruence).
  pose proof (C4_register_id_space 0x08000031 3 256 0xFFFFFEFE H1 H2 H3 H4)
    as (_ & _ & _ & H & _).
  exact (conj H1 (conj H2 (conj H3 (conj H4 H)))).
Defined.

(** C10. Of an operand whose kind is register, [isPhysReg] is [base id < 255]
    and [isVirtReg] is [base id > 255], and so are the ones [BaseReg]
    declares.  With the id 255, [kIdBad], which a default-constructed
    register has, the operand is neither physical nor virtual; with the
    invalid id [0xFFFFFFFF] it is virtual, though [isVirtId] rejects that
    id. *)
Theorem C10_register_classification (o : Operand_) :
  isReg o = true ->
  isPhysReg o = (_baseId o <? 255) /\
  isVirtReg o = (_baseId o >? 255) /\
  BaseReg.isPhysReg o = (_baseId o <? 255) /\
  BaseReg.isVirtReg o = (_baseId o >? 255) /\
  (isPhysReg (set_baseId BaseReg.kIdBad o) = false /\
   isVirtReg (set_baseId BaseReg.kIdBad o) = false) /\
  (isPhysReg BaseReg.BaseReg = false /\ isVirtReg BaseReg.BaseReg = false /\
   _baseId BaseReg.BaseReg = 255) /\
  (isPhysReg (set_baseId Globals.kInvalidId o) = false /\
   isVirtReg (set_baseId Globals.kInvalidId o) = true) /\
  Globals.kInvalidId = 0xFFFFFFFF /\
  isVirtId Globals.kInvalidId = false.
Proof.
  intros Hreg.
  assert (Hset : forall x, isReg (set_baseId x o) = true) by (intros x; exact Hreg).
  unfold isPhysReg, isVirtReg. rewrite !Hset, Hreg.
  repeat split.
Qed.

Lemma C10_register_classification_witness :
  isReg (BaseReg.make 0x08000031 0xFFFFFFFF) = true /\
  isVirtReg (BaseReg.make 0x08000031 0xFFFFFFFF) = (0xFFFFFFFF >? 255).
Proof.
  assert (H : isReg (BaseReg.make 0x08000031 0xFFFFFFFF) = true) by reflexivity.
  exact (conj H (proj1 (proj2 (C10_register_classification _ H)))).
Defined.

(* ------------------------------------------------------------------ *)
(** ** Reset *)

Lemma reset_is_none (o : Operand_) : reset o = Operand.
Proof. reflexivity. Qed.

(** C2, as stated, fails: [reset()] called on a [Label] reaches
    [Label::reset], which leaves a label operand, not the none operand. *)
Lemma C2_label_reset_not_none :
  resetOf ClsLabel (Label.ofId 7) <> Operand /\
  isNone (resetOf ClsLabel (Label.ofId 7)) = false /\
  isEqual Operand (resetOf ClsLabel (Label.ofId 7)) = false.
Proof.
  repeat split. intros H. discriminate H.
Qed.

(** C2, amended. [Operand_::reset], which [Operand], [BaseReg] and [Imm]
    inherit, takes any operand value, whatever its kind, to the all-zero
    operand, equal to a default-constructed [Operand], and [isNone] holds of
    both.  [Label::reset] leaves an operand of kind label with a zero
    payload, and [BaseMem::reset] the default-constructed [BaseMem], of kind
    memory; [isNone] holds of neither. *)
Theorem C2_reset (o : Operand_) :
  reset o = Operand /\
  Operand = mkOperand_ 0 0 0 0 /\
  isNone (reset o) = true /\
  isNone Operand = true /\
  isEqual Operand (reset o) = true /\
  resetOf ClsOperand o = Operand /\
  resetOf ClsBaseReg o = Operand /\
  resetOf ClsImm o = Operand /\
  (_signature (resetOf ClsLabel o) = kOpLabel /\
   _data64 (resetOf ClsLabel o) = 0 /\
   isLabel (resetOf ClsLabel o) = true /\
   isNone (resetOf ClsLabel o) = false) /\
  (resetOf ClsBaseMem o = BaseMem.BaseMem /\
   isMem (resetOf ClsBaseMem o) = true /\
   isNone (resetOf ClsBaseMem o) = false).
Proof.
  repeat split.
Qed.

(* ------------------------------------------------------------------ *)
(** ** Immediates *)

(** The payload of [Imm(int64_t val)] reads back as [val]. *)
Lemma Imm_payload (val : Z) : int64 val -> i64 (_data64 (Imm.ofInt64 val)) = val.
Proof.
  intros Hv. unfold Imm.ofInt64, Operand_init, _data64. cbn [_data32_0 _data32_1].
  unfold Support.unpackU32At0, Support.unpackU32At1.
  rewrite land_low32, shiftr_high32.
  rewrite lor_words by (unfold uint32; apply Z.mod_pos_bound; lia).
  pose proof (Z.div_mod (u64 val) (2 ^ 32)) as D.
  replace (u64 val mod 2 ^ 32 + 2 ^ 32 * (u64 val / 2 ^ 32)) with (u64 val) by lia.
  unfold i64, u64. rewrite Zplus_mod_idemp_l.
  unfold int64 in Hv. rewrite Z.mod_small by lia. lia.
Qed.

(** On every [int64_t] the six predicates of [Imm(val)] are the range checks
    on [val] itself. *)
Lemma Imm_fits_ranges (val : Z) :
  int64 val ->
  fits (Imm.ofInt64 val) =
  [(-128 <=? val) && (val <=? 127); (0 <=? val) && (val <=? 255);
   (-32768 <=? val) && (val <=? 32767); (0 <=? val) && (val <=? 65535);
   (-2147483648 <=? val) && (val <=? 2147483647);
   (0 <=? val) && (val <=? 4294967295)].
Proof.
  intros Hv. unfold fits, Imm.isInt8, Imm.isUInt8, Imm.isInt16, Imm.isUInt16,
    Imm.isInt32, Imm.isUInt32.
  rewrite (Imm_payload val Hv). reflexivity.
Qed.

(** C8. For the immediates holding -129, -128, 127, 128, 255, 256, 65535,
    65536, 2147483647 and 2147483648, the predicates [isInt8], [isUInt8],
    [isInt16], [isUInt16], [isInt32] and [isUInt32], in this order, answer
    as the two's-complement range of each width has it. *)
Theorem C8_fit_predicates :
  fits (Imm.ofInt64 (-129)) = [false; false; true; false; true; false] /\
  fits (Imm.ofInt64 (-128)) = [true; false; true; false; true; false] /\
  fits (Imm.ofInt64 127) = [true; true; true; true; true; true] /\
  fits (Imm.ofInt64 128) = [false; true; true; true; true; true] /\
  fits (Imm.ofInt64 255) = [false; true; true; true; true; true] /\
  fits (Imm.ofInt64 256) = [false; false; true; true; true; true] /\
  fits (Imm.ofInt64 65535) = [false; false; false; true; true; true] /\
  fits (Imm.ofInt64 65536) = [false; false; false; false; true; true] /\
  fits (Imm.ofInt64 2147483647) = [false; false; false; false; true; true] /\
  fits (Imm.ofInt64 2147483648) = [false; false; false; false; false; true].
Proof.
  repeat split.
Qed.

(* ------------------------------------------------------------------ *)
(** ** The compact register *)

(** C9. A register operand with a zero payload, taken to a [RegOnly] by
    [init] and back by [toReg], is the operand it was, field for field and
    under [isEqual]; and the [RegOnly] answers [signature], [id], [isNone],
    [isReg], [isPhysReg], [isVirtReg], [type] and [group] as the full
    register does. *)
Theorem C9_regonly_roundtrip (o : Operand_) (r0 : RegOnly.RegOnly) :
  isReg o = true ->
  _data32_0 o = 0 ->
  _data32_1 o = 0 ->
  RegOnly.toReg (RegOnly.initReg o r0) = o /\
  isEqual o (RegOnly.toReg (RegOnly.initReg o r0)) = true /\
  RegOnly.signature (RegOnly.initReg o r0) = signature o /\
  RegOnly.id (RegOnly.initReg o r0) = id o /\
  RegOnly.isNone (RegOnly.initReg o r0) = isNone o /\
  RegOnly.isReg (RegOnly.initReg o r0) = isReg o /\
  RegOnly.isPhysReg (RegOnly.initReg o r0) = BaseReg.isPhysReg o /\
  RegOnly.isPhysReg (RegOnly.initReg o r0) = isPhysReg o /\
  RegOnly.isVirtReg (RegOnly.initReg o r0) = BaseReg.isVirtReg o /\
  RegOnly.isVirtReg (RegOnly.initReg o r0) = isVirtReg o /\
  RegOnly.type (RegOnly.initReg o r0) = BaseReg.type o /\
  RegOnly.group (RegOnly.initReg o r0) = BaseReg.group o.
Proof.
  intros Hreg H0 H1.
  assert (Hrt : RegOnly.toReg (RegOnly.initReg o r0) = o).
  { destruct o as [s b d0 d1]. simpl in H0, H1. subst d0 d1. reflexivity. }
  assert (Hnz : (_signature o =? 0) = false).
  { destruct (Z.eqb_spec (_signature o) 0) as [E | E]; [| reflexivity].
    unfold isReg, opType, _getSignaturePart in Hreg. rewrite E in Hreg.
    discriminate Hreg. }
  unfold isPhysReg, isVirtReg. rewrite Hreg, Hrt.
  unfold RegOnly.isReg, RegOnly.isNone, isNone, RegOnly.initReg, RegOnly.init,
    signature. cbn [RegOnly._signature]. rewrite Hnz.
  unfold isEqual. rewrite !Z.eqb_refl.
  repeat split.
Qed.

Lemma C9_regonly_roundtrip_witness :
  isReg (BaseReg.make 0x08000031 300) = true /\
  _data32_0 (BaseReg.make 0x08000031 300) = 0 /\
  _data32_1 (BaseReg.make 0x08000031 300) = 0 /\
  RegOnly.toReg (RegOnly.initReg (BaseReg.make 0x08000031 300)
                   (RegOnly.mkRegOnly 0 0)) =
  BaseReg.make 0x08000031 300.
Proof.
  assert (H1 : isReg (BaseReg.make 0x08000031 300) = true) by reflexivity.
  assert (H2 : _data32_0 (BaseReg.make 0x08000031 300) = 0) by reflexivity.
  assert (H3 : _data32_1 (BaseReg.make 0x08000031 300) = 0) by reflexivity.
  exact (conj H1 (conj H2 (conj H3
           (proj1 (C9_regonly_roundtrip _ (RegOnly.mkRegOnly 0 0) H1 H2 H3))))).
Defined.

(* ================================================================== *)
(** * Further properties of the operand core *)

(* ------------------------------------------------------------------ *)
(** ** More on one field *)

Lemma lor_low_high (s a b : Z) :
  0 <= s -> 0 <= a < 2 ^ s -> Z.lor a (Z.shiftl b s) = a + 2 ^ s * b.
Proof.
  intros Hs Ha.
  assert (D : Z.land a (Z.shiftl b s) = 0).
  { apply Z.bits_inj'. intros n Hn.
    rewrite Z.land_spec, Z.bits_0.
    destruct (Z.ltb_spec n s) as [Hlt | Hge].
    - rewrite Z.shiftl_spec_low by assumption. apply andb_false_r.
    - rewrite (testbit_high s a n) by (assumption || lia). reflexivity. }
  rewrite <- Z.lxor_lor by assumption.
  rewrite <- Z.add_nocarry_lxor by assumption.
  rewrite Z.shiftl_mul_pow2 by lia. lia.
Qed.

Section FieldArith.

Variables w s mask : Z.
Hypothesis Hs : 0 <= s.
Hypothesis Hw : 0 < w.
Hypothesis Hsw : s + w <= 32.
Hypothesis Hmask : mask = Z.shiftl (Z.ones w) s.
Hypothesis Hctz : Support.constCtz mask = s.

(** The field as arithmetic. *)
Lemma getPart_div_mod (sig : Z) : getPart mask sig = (sig / 2 ^ s) mod 2 ^ w.
Proof.
  unfold getPart. rewrite Hctz.
  assert (E : Z.shiftr mask s = Z.ones w).
  { rewrite Hmask. apply Z.bits_inj'. intros n Hn.
    rewrite Z.shiftr_spec, Z.shiftl_spec by lia. f_equal. lia. }
  rewrite E, Z.land_ones, Z.shiftr_div_pow2 by lia. reflexivity.
Qed.

(** The bits under the mask are the field, at its shift. *)
Lemma land_mask_shiftl (sig : Z) :
  Z.land sig mask = Z.shiftl (getPart mask sig) s.
Proof.
  apply Z.bits_inj'. intros n Hn.
  rewrite Z.land_spec, (testbit_mask w s mask), Z.shiftl_spec by assumption.
  destruct (Z.leb_spec s n) as [Hle | Hlt].
  - rewrite (testbit_getPart w s mask) by first [assumption | lia].
    replace (n - s + s) with n by lia.
    destruct (Z.ltb_spec n (s + w)), (Z.ltb_spec (n - s) w); try lia; reflexivity.
  - rewrite (Z.testbit_neg_r (getPart mask sig)) by lia. simpl. apply andb_false_r.
Qed.

Lemma land_mask_arith (sig : Z) :
  Z.land sig mask = 2 ^ s * getPart mask sig.
Proof. rewrite land_mask_shiftl, Z.shiftl_mul_pow2 by assumption. lia. Qed.

(** [_hasSignaturePart] says that [_getSignaturePart] is not zero. *)
Lemma hasPart_getPart (sig : Z) :
  hasPart mask sig = negb (getPart mask sig =? 0).
Proof.
  unfold hasPart. f_equal.
  pose proof (getPart_eq0_iff w s mask Hs Hw Hmask Hctz sig) as H.
  destruct (Z.eqb_spec (Z.land sig mask) 0), (Z.eqb_spec (getPart mask sig) 0);
    try reflexivity; exfalso; tauto.
Qed.

(** Comparing the masked signature with a shifted value compares the field. *)
Lemma land_mask_eqb (sig value : Z) :
  0 <= value < 2 ^ w ->
  (Z.land sig mask =? u32 (Z.shiftl value s)) = (getPart mask sig =? value).
Proof.
  intros Hv.
  assert (P : 0 < 2 ^ s) by (apply Z.pow_pos_nonneg; lia).
  assert (B : 2 ^ s * 2 ^ w <= 2 ^ 32).
  { rewrite <- Z.pow_add_r by lia. apply Z.pow_le_mono_r; lia. }
  rewrite land_mask_arith, Z.shiftl_mul_pow2 by assumption.
  unfold u32. rewrite Z.mod_small by nia.
  destruct (Z.eqb_spec (2 ^ s * getPart mask sig) (value * 2 ^ s)),
    (Z.eqb_spec (getPart mask sig) value); try reflexivity; exfalso; nia.
Qed.

(** Comparing the masked signature with a shifted value orders the field. *)
Lemma land_mask_gtb (sig value : Z) :
  0 <= value < 2 ^ w ->
  (Z.land sig mask >? u32 (Z.shiftl value s)) = (getPart mask sig >? value).
Proof.
  intros Hv.
  assert (P : 0 < 2 ^ s) by (apply Z.pow_pos_nonneg; lia).
  assert (B : 2 ^ s * 2 ^ w <= 2 ^ 32).
  { rewrite <- Z.pow_add_r by lia. apply Z.pow_le_mono_r; lia. }
  rewrite land_mask_arith, Z.shiftl_mul_pow2 by assumption.
  unfold u32. rewrite Z.mod_small by nia.
  rewrite !Z.gtb_ltb.
  destruct (Z.ltb_spec (value * 2 ^ s) (2 ^ s * getPart mask sig)),
    (Z.ltb_spec value (getPart mask sig)); try reflexivity; exfalso; nia.
Qed.

End FieldArith.

(** The kind together with a second field, as [isReg(rType)] and the statics
    [isGp(op)], [isVec(op)] compare them in one go. *)
Lemma kind_and_field_eqb (w s mask sig kind value : Z) :
  3 <= s -> 0 < w -> s + w <= 32 ->
  mask = Z.shiftl (Z.ones w) s -> Support.constCtz mask = s ->
  0 <= kind < 2 ^ 3 -> 0 <= value < 2 ^ w ->
  (Z.land sig (Z.lor kSignatureOpMask mask) =?
   Z.lor (u32 (Z.shiftl kind kSignatureOpShift)) (u32 (Z.shiftl value s))) =
  (getPart kSignatureOpMask sig =? kind) && (getPart mask sig =? value).
Proof.
  intros Hs Hw Hsw Hmask Hctz Hk Hv.
  assert (Ro : 0 <= getPart kSignatureOpMask sig < 2 ^ 3)
    by (apply (getPart_range 3 0); shape).
  assert (Rf : 0 <= getPart mask sig < 2 ^ w)
    by (apply (getPart_range w s); shape || assumption).
  assert (P : 0 < 2 ^ s) by (apply Z.pow_pos_nonneg; lia).
  assert (P8 : 2 ^ 3 <= 2 ^ s) by (apply Z.pow_le_mono_r; lia).
  assert (B : 2 ^ s * 2 ^ w <= 2 ^ 32).
  { rewrite <- Z.pow_add_r by lia. apply Z.pow_le_mono_r; lia. }
  rewrite Z.land_lor_distr_r.
  rewrite (land_mask_shiftl 3 0 kSignatureOpMask) by shape.
  rewrite (land_mask_shiftl w s mask) by (shape || assumption).
  change kSignatureOpShift with 0. rewrite !Z.shiftl_0_r.
  rewrite (u32_small kind) by (unfold uint32; lia).
  rewrite (u32_small (Z.shiftl value s))
    by (unfold uint32; rewrite Z.shiftl_mul_pow2 by lia; nia).
  rewrite !lor_low_high by lia.
  destruct (Z.eqb_spec (getPart kSignatureOpMask sig + 2 ^ s * getPart mask sig)
                       (kind + 2 ^ s * value)) as [E | E],
    (Z.eqb_spec (getPart kSignatureOpMask sig) kind) as [E1 | E1],
    (Z.eqb_spec (getPart mask sig) value) as [E2 | E2];
    try reflexivity; exfalso; nia.
Qed.

(* ------------------------------------------------------------------ *)
(** ** Equality of operands *)

Lemma data64_words (o : Operand_) :
  wf o -> _data64 o = _data32_0 o + 2 ^ 32 * _data32_1 o.
Proof. intros (_ & _ & H0 & _). apply lor_words. exact H0. Qed.

(** X1. On operands whose members are 32-bit values [isEqual] decides
    equality: it answers true exactly when the two operands are the same
    value. *)
Theorem isEqual_reflects (a b : Operand_) :
  wf a -> wf b -> (isEqual b a = true <-> a = b).
Proof.
  intros Ha Hb. unfold isEqual.
  rewrite !andb_true_iff, !Z.eqb_eq, (data64_words a Ha), (data64_words b Hb).
  destruct Ha as (_ & _ & Ha0 & Ha1), Hb as (_ & _ & Hb0 & Hb1).
  unfold uint32 in *.
  destruct a as [sa ba a0 a1], b as [sb bb b0 b1].
  cbn [_signature _baseId _data32_0 _data32_1] in *.
  split.
  - intros [[Es Eb] Ed]. subst sb bb.
    assert (a0 = b0) by lia. assert (a1 = b1) by lia. subst. reflexivity.
  - intros E. injection E as -> -> -> ->. repeat split.
Qed.

Lemma isEqual_reflects_witness :
  wf (BaseReg.make 0x08000031 3) /\ wf (Imm.ofInt64 (-1)) /\
  (isEqual (Imm.ofInt64 (-1)) (BaseReg.make 0x08000031 3) = true <->
   BaseReg.make 0x08000031 3 = Imm.ofInt64 (-1)).
Proof.
  assert (Ha : wf (BaseReg.make 0x08000031 3))
    by (vm_compute; repeat split; congruence).
  assert (Hb : wf (Imm.ofInt64 (-1)))
    by (vm_compute; repeat split; congruence).
  exact (conj Ha (conj Hb (isEqual_reflects _ _ Ha Hb))).
Defined.

(** X2. [isSame] compares signature and id only.  Whatever [isEqual] accepts
    [isSame] accepts; on two operands with a zero payload the two give the
    same answer; with a payload that differs [isSame] can hold where
    [isEqual] does not. *)
Theorem isSame_isEqual (a b : Operand_) :
  _data64 a = 0 -> _data64 b = 0 ->
  BaseReg.isSame b a = isEqual b a /\
  (forall x y : Operand_, isEqual y x && negb (BaseReg.isSame y x) = false) /\
  BaseReg.isSame (mkOperand_ kOpReg 3 0 0) (mkOperand_ kOpReg 3 7 0) = true /\
  isEqual (mkOperand_ kOpReg 3 0 0) (mkOperand_ kOpReg 3 7 0) = false.
Proof.
  intros Ha Hb. unfold BaseReg.isSame, isEqual. rewrite Ha, Hb.
  repeat split.
  - rewrite andb_true_r. reflexivity.
  - intros x y.
    destruct (_signature x =? _signature y), (_baseId x =? _baseId y),
      (_data64 x =? _data64 y); reflexivity.
Qed.

Lemma isSame_isEqual_witness :
  _data64 (BaseReg.make 0x08000031 3) = 0 /\
  _data64 (BaseReg.make 0x08000031 4) = 0 /\
  BaseReg.isSame (BaseReg.make 0x08000031 4) (BaseReg.make 0x08000031 3) =
  isEqual (BaseReg.make 0x08000031 4) (BaseReg.make 0x08000031 3).
Proof.
  assert (Ha : _data64 (BaseReg.make 0x08000031 3) = 0) by reflexivity.
  assert (Hb : _data64 (BaseReg.make 0x08000031 4) = 0) by reflexivity.
  exact (conj Ha (conj Hb (proj1 (isSame_isEqual _ _ Ha Hb)))).
Defined.

(* ------------------------------------------------------------------ *)
(** ** Register type and group tests *)

Lemma isType_eqb (type : Z) (o : Operand_) :
  0 <= type < 2 ^ 5 -> BaseReg.isType type o = (BaseReg.type o =? type).
Proof.
  intros Ht. unfold BaseReg.isType, BaseReg.type, _getSignaturePart.
  apply (land_mask_eqb 5 3 kSignatureRegTypeMask); shape.
Qed.

Lemma isGroup_eqb (group : Z) (o : Operand_) :
  0 <= group < 2 ^ 4 -> BaseReg.isGroup group o = (BaseReg.group o =? group).
Proof.
  intros Hg. unfold BaseReg.isGroup, BaseReg.group, _getSignaturePart.
  apply (land_mask_eqb 4 8 kSignatureRegGroupMask); shape.
Qed.

Lemma isRegOfType_eqb (rType : Z) (o : Operand_) :
  0 <= rType < 2 ^ 5 ->
  isRegOfType rType o = isReg o && (BaseReg.type o =? rType).
Proof.
  intros Hr. unfold isRegOfType, isReg, opType, BaseReg.type, _getSignaturePart.
  apply (kind_and_field_eqb 5 3 kSignatureRegTypeMask);
    first [shape | unfold kOpReg; lia].
Qed.

(** X3. For a register type that fits its five bits, [Operand_::isReg(rType)]
    holds exactly of the register operands whose type is [rType].  The
    [BaseReg::isReg(rType)] that hides it is [isType], which compares the
    type alone and so is the former without the kind check. *)
Theorem isRegOfType_spec (rType : Z) (o : Operand_) :
  0 <= rType < 2 ^ 5 ->
  isRegOfType rType o = isReg o && (BaseReg.type o =? rType) /\
  BaseReg.isRegOfType rType o = (BaseReg.type o =? rType) /\
  isRegOfType rType o = isReg o && BaseReg.isRegOfType rType o.
Proof.
  intros Hr.
  pose proof (isRegOfType_eqb rType o Hr) as H1.
  assert (H2 : BaseReg.isRegOfType rType o = (BaseReg.type o =? rType))
    by (apply isType_eqb; exact Hr).
  rewrite H2. repeat split; assumption.
Qed.

Lemma isRegOfType_spec_witness :
  0 <= BaseReg.kTypeGp64 < 2 ^ 5 /\
  isRegOfType BaseReg.kTypeGp64 (BaseMem.ofDecomposed (BaseMem.mkDecomposed 6 5 0 0 0 0 0)) =
  isReg (BaseMem.ofDecomposed (BaseMem.mkDecomposed 6 5 0 0 0 0 0)) &&
  BaseReg.isRegOfType BaseReg.kTypeGp64
    (BaseMem.ofDecomposed (BaseMem.mkDecomposed 6 5 0 0 0 0 0)).
Proof.
  assert (H : 0 <= BaseReg.kTypeGp64 < 2 ^ 5) by (unfold BaseReg.kTypeGp64; lia).
  exact (conj H (proj2 (proj2 (isRegOfType_spec _ _ H)))).
Defined.

(** X4. For a type and a group that fit their bits, [isType] and [isGroup]
    compare the type and the group of the register; [isGp] and [isVec] are
    the group being 0 and 1, and never hold together. *)
Theorem isType_isGroup_spec (type group : Z) (o : Operand_) :
  0 <= type < 2 ^ 5 -> 0 <= group < 2 ^ 4 ->
  BaseReg.isType type o = (BaseReg.type o =? type) /\
  BaseReg.isGroup group o = (BaseReg.group o =? group) /\
  BaseReg.isGp o = (BaseReg.group o =? BaseReg.kGroupGp) /\
  BaseReg.isVec o = (BaseReg.group o =? BaseReg.kGroupVec) /\
  BaseReg.isGp o && BaseReg.isVec o = false.
Proof.
  intros Ht Hg.
  split; [apply isType_eqb; exact Ht |].
  split; [apply isGroup_eqb; exact Hg |].
  unfold BaseReg.isGp, BaseReg.isVec.
  rewrite !isGroup_eqb by (unfold BaseReg.kGroupGp, BaseReg.kGroupVec; lia).
  repeat split. unfold BaseReg.kGroupGp, BaseReg.kGroupVec. lia.
Qed.

Lemma isType_isGroup_spec_witness :
  0 <= 6 < 2 ^ 5 /\ 0 <= 1 < 2 ^ 4 /\
  BaseReg.isGroup 1 (BaseReg.make 0x10000149 2) =
  (BaseReg.group (BaseReg.make 0x10000149 2) =? 1).
Proof.
  assert (Ht : 0 <= 6 < 2 ^ 5) by lia.
  assert (Hg : 0 <= 1 < 2 ^ 4) by lia.
  exact (conj Ht (conj Hg (proj1 (proj2 (isType_isGroup_spec 6 1 _ Ht Hg))))).
Defined.

(** X5. The statics [isGp(op)] and [isVec(op)] hold exactly of the register
    operands whose group is the general purpose one and the vector one; the
    member [isGp()] is the same without the kind check, and no operand is
    both. *)
Theorem isGpOp_spec (op : Operand_) :
  BaseReg.isGpOp op = isReg op && (BaseReg.group op =? BaseReg.kGroupGp) /\
  BaseReg.isVecOp op = isReg op && (BaseReg.group op =? BaseReg.kGroupVec) /\
  BaseReg.isGpOp op = isReg op && BaseReg.isGp op /\
  BaseReg.isVecOp op = isReg op && BaseReg.isVec op /\
  BaseReg.isGpOp op && BaseReg.isVecOp op = false.
Proof.
  assert (G : forall g, 0 <= g < 2 ^ 4 ->
              (Z.land (signature op) (Z.lor kSignatureOpMask kSignatureRegGroupMask) =?
               Z.lor (u32 (Z.shiftl kOpReg kSignatureOpShift))
                     (u32 (Z.shiftl g kSignatureRegGroupShift))) =
              isReg op && (BaseReg.group op =? g)).
  { intros g Hg. unfold isReg, opType, BaseReg.group, _getSignaturePart, signature.
    apply (kind_and_field_eqb 4 8 kSignatureRegGroupMask);
      first [shape | unfold kOpReg; lia]. }
  assert (Hgp : BaseReg.isGpOp op = isReg op && (BaseReg.group op =? BaseReg.kGroupGp))
    by (apply G; unfold BaseReg.kGroupGp; lia).
  assert (Hvec : BaseReg.isVecOp op = isReg op && (BaseReg.group op =? BaseReg.kGroupVec))
    by (apply G; unfold BaseReg.kGroupVec; lia).
  unfold BaseReg.isGp, BaseReg.isVec.
  rewrite !isGroup_eqb by (unfold BaseReg.kGroupGp, BaseReg.kGroupVec; lia).
  rewrite Hgp, Hvec.
  repeat split.
  unfold BaseReg.kGroupGp, BaseReg.kGroupVec. lia.
Qed.

Lemma isGpOp_spec_example :
  BaseReg.isGpOp (BaseMem.ofDecomposed (BaseMem.mkDecomposed 6 5 0 0 0 0 0)) = false /\
  BaseReg.isGp (BaseMem.ofDecomposed (BaseMem.mkDecomposed 6 5 0 0 0 0 0)) = true.
Proof. split; reflexivity. Qed.

(* ------------------------------------------------------------------ *)
(** ** Register traits *)

(** A register-traits signature read through the mask of a field [w] bits
    wide at shift [s]. *)
Ltac read_reg_field w s m :=
  unfold kSignature, kOpReg;
  change kSignatureOpShift with 0;
  change kSignatureRegTypeShift with 3;
  change kSignatureRegGroupShift with 8;
  change kSignatureSizeShift with 24;
  rewrite !(getPart_lor w s m) by shape;
  rewrite (getPart_shifted w s m) by (shape || assumption);
  rewrite ?(getPart_shifted_other w s m ltac:(shape) ltac:(shape) eq_refl eq_refl 3 0)
    by (shape || assumption);
  rewrite ?(getPart_shifted_other w s m ltac:(shape) ltac:(shape) eq_refl eq_refl 5 3)
    by (shape || assumption);
  rewrite ?(getPart_shifted_other w s m ltac:(shape) ltac:(shape) eq_refl eq_refl 4 8)
    by (shape || assumption);
  rewrite ?(getPart_shifted_other w s m ltac:(shape) ltac:(shape) eq_refl eq_refl 8 24)
    by (shape || assumption);
  rewrite ?Z.lor_0_r, ?Z.lor_0_l.

Lemma kSignature_fields (t : RegTraits) :
  0 <= kType t < 2 ^ 5 -> 0 <= kGroup t < 2 ^ 4 -> 0 <= kSize t < 2 ^ 8 ->
  getPart kSignatureRegTypeMask (kSignature t) = kType t /\
  getPart kSignatureRegGroupMask (kSignature t) = kGroup t /\
  getPart kSignatureSizeMask (kSignature t) = kSize t.
Proof.
  intros Ht Hg Hsz. repeat split.
  - read_reg_field 5 3 kSignatureRegTypeMask. reflexivity.
  - read_reg_field 4 8 kSignatureRegGroupMask. reflexivity.
  - read_reg_field 8 24 kSignatureSizeMask. reflexivity.
Qed.

(** X6. The signature [ASMJIT_DEFINE_REG_TRAITS] computes from a type, a
    group and a size that fit their fields gives them back: a register built
    from it and an id is of kind register and reports that type, group, size
    and id, and [RegInfo] reads the same from the signature, which is valid. *)
Theorem traits_signature_roundtrip (t : RegTraits) (rId : Z) :
  0 <= kType t < 2 ^ 5 -> 0 <= kGroup t < 2 ^ 4 -> 0 <= kSize t < 2 ^ 8 ->
  isReg (BaseReg.make (kSignature t) rId) = true /\
  BaseReg.type (BaseReg.make (kSignature t) rId) = kType t /\
  BaseReg.group (BaseReg.make (kSignature t) rId) = kGroup t /\
  size (BaseReg.make (kSignature t) rId) = kSize t /\
  id (BaseReg.make (kSignature t) rId) = rId /\
  isRegOfType (kType t) (BaseReg.make (kSignature t) rId) = true /\
  RegInfo.isValid (RegInfo.mkRegInfo (kSignature t)) = true /\
  RegInfo.opType (RegInfo.mkRegInfo (kSignature t)) = kOpReg /\
  RegInfo.type (RegInfo.mkRegInfo (kSignature t)) = kType t /\
  RegInfo.group (RegInfo.mkRegInfo (kSignature t)) = kGroup t /\
  RegInfo.size (RegInfo.mkRegInfo (kSignature t)) = kSize t.
Proof.
  intros Ht Hg Hsz.
  destruct (kSignature_fields t Ht Hg Hsz) as (Et & Eg & Es).
  pose proof (opType_kSignature t) as Eo.
  assert (Hreg : isReg (BaseReg.make (kSignature t) rId) = true).
  { unfold isReg, opType, _getSignaturePart, BaseReg.make, Operand_init.
    cbn [_signature]. rewrite Eo. reflexivity. }
  assert (Hty : BaseReg.type (BaseReg.make (kSignature t) rId) = kType t) by exact Et.
  split; [exact Hreg |]. split; [exact Hty |].
  split; [exact Eg |]. split; [exact Es |]. split; [reflexivity |].
  split.
  { rewrite (isRegOfType_eqb (kType t) _ Ht), Hreg, Hty.
    apply Z.eqb_refl. }
  split.
  { unfold RegInfo.isValid. cbn [RegInfo._signature].
    destruct (Z.eqb_spec (kSignature t) 0) as [E | E]; [| reflexivity].
    rewrite E in Eo. discriminate Eo. }
  repeat split; assumption.
Qed.

Lemma traits_signature_roundtrip_witness :
  0 <= kType (mkRegTraits 1 16 0 BaseReg.kTypeVec128 BaseReg.kGroupVec 16) < 2 ^ 5 /\
  0 <= kGroup (mkRegTraits 1 16 0 BaseReg.kTypeVec128 BaseReg.kGroupVec 16) < 2 ^ 4 /\
  0 <= kSize (mkRegTraits 1 16 0 BaseReg.kTypeVec128 BaseReg.kGroupVec 16) < 2 ^ 8 /\
  BaseReg.group
    (BaseReg.make
       (kSignature (mkRegTraits 1 16 0 BaseReg.kTypeVec128 BaseReg.kGroupVec 16)) 7) =
  BaseReg.kGroupVec.
Proof.
  assert (Ht : 0 <= kType (mkRegTraits 1 16 0 BaseReg.kTypeVec128 BaseReg.kGroupVec 16)
               < 2 ^ 5) by (vm_compute; repeat split; congruence).
  assert (Hg : 0 <= kGroup (mkRegTraits 1 16 0 BaseReg.kTypeVec128 BaseReg.kGroupVec 16)
               < 2 ^ 4) by (vm_compute; repeat split; congruence).
  assert (Hs : 0 <= kSize (mkRegTraits 1 16 0 BaseReg.kTypeVec128 BaseReg.kGroupVec 16)
               < 2 ^ 8) by (vm_compute; repeat split; congruence).
  pose proof (traits_signature_roundtrip _ 7 Ht Hg Hs) as (_ & _ & H & _).
  exact (conj Ht (conj Hg (conj Hs H))).
Defined.

(* ------------------------------------------------------------------ *)
(** ** Virtual ids *)



(* ------------------------------------------------------------------ *)
(** ** The fields of a memory signature *)

Lemma mem_field_shape (f : MemField) :
  0 <= memFieldShift f /\ 0 < memFieldWidth f /\
  memFieldShift f + memFieldWidth f <= 32 /\
  memFieldMask f = Z.shiftl (Z.ones (memFieldWidth f)) (memFieldShift f) /\
  Support.constCtz (memFieldMask f) = memFieldShift f.
Proof.
  destruct f; repeat split; try reflexivity; vm_compute; congruence.
Qed.

Lemma mem_field_apart (f g : MemField) :
  g <> f ->
  memFieldShift g + memFieldWidth g <= memFieldShift f \/
  memFieldShift f + memFieldWidth f <= memFieldShift g.
Proof.
  intros Hne.
  destruct f, g; try congruence;
    solve [left; vm_compute; congruence | right; vm_compute; congruence].
Qed.

(** Writing one field of a memory signature: the field reads back, the
    others read as before. *)
Lemma mem_field_write (f : MemField) (value sig : Z) :
  0 <= value < 2 ^ memFieldWidth f ->
  getPart (memFieldMask f) (setPart (memFieldMask f) value sig) = value /\
  (forall g : MemField,
     g = f \/
     getPart (memFieldMask g) (setPart (memFieldMask f) value sig) =
     getPart (memFieldMask g) sig) /\
  Z.land (setPart (memFieldMask f) value sig) (not32 (memFieldMask f)) =
  Z.land sig (not32 (memFieldMask f)).
Proof.
  intros Hv.
  destruct (mem_field_shape f) as (Hs & Hw & Hsw & Hmask & Hctz).
  split; [apply (getPart_setPart _ _ _ Hs Hw Hsw Hmask Hctz); exact Hv |].
  split; [| apply (setPart_outside _ _ _ Hw Hmask Hctz); exact Hv].
  intros g.
  assert (D : {g = f} + {g <> f}) by decide equality.
  destruct D as [Heq | Hne]; [left; exact Heq | right].
  destruct (mem_field_shape g) as (Hs' & Hw' & Hsw' & Hmask' & Hctz').
  apply (getPart_setPart_other _ _ _ Hs Hw Hsw Hmask Hctz
           _ _ _ _ _ Hs' Hw' Hsw' Hmask' Hctz' (mem_field_apart f g Hne) Hv).
Qed.

(** Writing a field twice: the last value stands. *)
Lemma setPart_setPart (w s mask v1 v2 sig : Z) :
  0 < w -> mask = Z.shiftl (Z.ones w) s -> Support.constCtz mask = s ->
  0 <= v1 < 2 ^ w ->
  setPart mask v2 (setPart mask v1 sig) = setPart mask v2 sig.
Proof.
  intros Hw Hmask Hctz Hv1.
  unfold setPart at 1 3. f_equal.
  apply (setPart_outside w s mask Hw Hmask Hctz). exact Hv1.
Qed.

(** X8. [_setBase] with a type that fits its five bits sets the base type and
    the base id and nothing else: kind, index type, address kind, register
    home flag and size read as before, and so do the index id and the low
    offset word.  [_setIndex] does the same for the index. *)
Theorem setBase_setIndex_frame (rType rId : Z) (o : Operand_) :
  0 <= rType < 2 ^ 5 ->
  (BaseMem.baseType (BaseMem._setBase rType rId o) = rType /\
   BaseMem.baseId (BaseMem._setBase rType rId o) = rId /\
   (forall g : MemField,
      g = MBaseType \/
      _getSignaturePart (memFieldMask g) (BaseMem._setBase rType rId o) =
      _getSignaturePart (memFieldMask g) o) /\
   BaseMem.indexId (BaseMem._setBase rType rId o) = BaseMem.indexId o /\
   _mem_offsetLo32 (BaseMem._setBase rType rId o) = _mem_offsetLo32 o) /\
  (BaseMem.indexType (BaseMem._setIndex rType rId o) = rType /\
   BaseMem.indexId (BaseMem._setIndex rType rId o) = rId /\
   (forall g : MemField,
      g = MIndexType \/
      _getSignaturePart (memFieldMask g) (BaseMem._setIndex rType rId o) =
      _getSignaturePart (memFieldMask g) o) /\
   BaseMem.baseId (BaseMem._setIndex rType rId o) = BaseMem.baseId o /\
   _mem_offsetLo32 (BaseMem._setIndex rType rId o) = _mem_offsetLo32 o).
Proof.
  intros Hr.
  destruct (mem_field_write MBaseType rType (_signature o) Hr) as (Bg & Bo & _).
  destruct (mem_field_write MIndexType rType (_signature o) Hr) as (Ig & Io & _).
  repeat split; assumption.
Qed.

Lemma setBase_setIndex_frame_witness :
  0 <= 6 < 2 ^ 5 /\
  BaseMem.baseType (BaseMem._setBase 6 3 (mkOperand_ kOpMem 0x12 0 0x34)) = 6 /\
  BaseMem.baseId (BaseMem._setBase 6 3 (mkOperand_ kOpMem 0x12 0 0x34)) = 3.
Proof.
  assert (H : 0 <= 6 < 2 ^ 5) by lia.
  pose proof (setBase_setIndex_frame 6 3 (mkOperand_ kOpMem 0x12 0 0x34) H)
    as ((H1 & H2 & _) & _).
  exact (conj H (conj H1 H2)).
Defined.

(* ------------------------------------------------------------------ *)
(** ** Presence tests *)

(** X9. The presence tests agree with the field getters: [hasSize] is
    [size() != 0], [hasBase] is [baseType() != 0], [hasIndex] is
    [indexType() != 0], [hasBaseOrIndex] is [baseAndIndexTypes() != 0] and is
    [hasBase] or [hasIndex]; [baseAndIndexTypes] is the base type with the
    index type in the five bits above it. *)
Theorem presence_tests (o : Operand_) :
  hasSize o = negb (size o =? 0) /\
  BaseMem.hasBase o = negb (BaseMem.baseType o =? 0) /\
  BaseMem.hasIndex o = negb (BaseMem.indexType o =? 0) /\
  BaseMem.hasBaseOrIndex o = negb (BaseMem.baseAndIndexTypes o =? 0) /\
  BaseMem.hasBaseOrIndex o = BaseMem.hasBase o || BaseMem.hasIndex o /\
  BaseMem.hasBaseAndIndex o = BaseMem.hasBase o && BaseMem.hasIndex o /\
  BaseMem.baseAndIndexTypes o = BaseMem.baseType o + 2 ^ 5 * BaseMem.indexType o.
Proof.
  assert (Hsz : hasSize o = negb (size o =? 0))
    by (apply (hasPart_getPart 8 24 kSignatureSizeMask); shape).
  assert (Hb : BaseMem.hasBase o = negb (BaseMem.baseType o =? 0))
    by (apply (hasPart_getPart 5 3 kSignatureMemBaseTypeMask); shape).
  assert (Hi : BaseMem.hasIndex o = negb (BaseMem.indexType o =? 0))
    by (apply (hasPart_getPart 5 8 kSignatureMemIndexTypeMask); shape).
  assert (Hbi : BaseMem.hasBaseOrIndex o = negb (BaseMem.baseAndIndexTypes o =? 0))
    by (apply (hasPart_getPart 10 3 kSignatureMemBaseIndexMask); shape).
  assert (Hsum : BaseMem.baseAndIndexTypes o =
                 BaseMem.baseType o + 2 ^ 5 * BaseMem.indexType o).
  { unfold BaseMem.baseAndIndexTypes, BaseMem.baseType, BaseMem.indexType,
      _getSignaturePart.
    rewrite (getPart_div_mod 10 3 kSignatureMemBaseIndexMask) by shape.
    rewrite (getPart_div_mod 5 3 kSignatureMemBaseTypeMask) by shape.
    rewrite (getPart_div_mod 5 8 kSignatureMemIndexTypeMask) by shape.
    replace (2 ^ 8) with (2 ^ 3 * 2 ^ 5) by lia.
    rewrite <- Z.div_div by lia.
    replace (2 ^ 10) with (2 ^ 5 * 2 ^ 5) by lia.
    rewrite Z.rem_mul_r by lia. reflexivity. }
  assert (Rb : 0 <= BaseMem.baseType o < 2 ^ 5)
    by (apply (getPart_range 5 3 kSignatureMemBaseTypeMask); shape).
  assert (Ri : 0 <= BaseMem.indexType o < 2 ^ 5)
    by (apply (getPart_range 5 8 kSignatureMemIndexTypeMask); shape).
  repeat split; try assumption.
  rewrite Hbi, Hb, Hi, Hsum. lia.
Qed.

(** X10. The base of a memory operand is absent, a label or a register, one
    and only one: [hasBaseLabel] is the base type being the label tag 1,
    [hasBaseReg] the base type being above it, and [hasBase] is the one or
    the other; [hasIndexReg] is the index type being above the label tag.
    No base is the 64-bit offset mode. *)
Theorem base_classification (o : Operand_) :
  BaseMem.hasBaseLabel o = (BaseMem.baseType o =? Label.kLabelTag) /\
  BaseMem.hasBaseReg o = (BaseMem.baseType o >? Label.kLabelTag) /\
  BaseMem.hasIndexReg o = (BaseMem.indexType o >? Label.kLabelTag) /\
  BaseMem.hasBase o = BaseMem.hasBaseLabel o || BaseMem.hasBaseReg o /\
  BaseMem.hasBaseLabel o && BaseMem.hasBaseReg o = false /\
  BaseMem.isOffset64Bit o = negb (BaseMem.hasBaseLabel o || BaseMem.hasBaseReg o).
Proof.
  assert (Hl : BaseMem.hasBaseLabel o = (BaseMem.baseType o =? Label.kLabelTag)).
  { unfold BaseMem.hasBaseLabel, BaseMem.baseType, _getSignaturePart.
    apply (land_mask_eqb 5 3 kSignatureMemBaseTypeMask);
      first [shape | unfold Label.kLabelTag; lia]. }
  assert (Hr : BaseMem.hasBaseReg o = (BaseMem.baseType o >? Label.kLabelTag)).
  { unfold BaseMem.hasBaseReg, BaseMem.baseType, _getSignaturePart.
    apply (land_mask_gtb 5 3 kSignatureMemBaseTypeMask);
      first [shape | unfold Label.kLabelTag; lia]. }
  assert (Hi : BaseMem.hasIndexReg o = (BaseMem.indexType o >? Label.kLabelTag)).
  { unfold BaseMem.hasIndexReg, BaseMem.indexType, _getSignaturePart.
    apply (land_mask_gtb 5 8 kSignatureMemIndexTypeMask);
      first [shape | unfold Label.kLabelTag; lia]. }
  assert (Hb : BaseMem.hasBase o = negb (BaseMem.baseType o =? 0))
    by (apply (hasPart_getPart 5 3 kSignatureMemBaseTypeMask); shape).
  assert (Rb : 0 <= BaseMem.baseType o < 2 ^ 5)
    by (apply (getPart_range 5 3 kSignatureMemBaseTypeMask); shape).
  rewrite Hl, Hr, Hi, Hb. unfold BaseMem.isOffset64Bit, Label.kLabelTag.
  repeat split; lia.
Qed.

(* ------------------------------------------------------------------ *)
(** ** Offsets through the accessors *)

Lemma i32_range (x : Z) : int32 (i32 x).
Proof.
  unfold int32, i32. pose proof (Z.mod_pos_bound (x + 2 ^ 31) (2 ^ 32)). lia.
Qed.

Lemma i64_mod64 (x : Z) : i64 (x mod 2 ^ 64) = i64 x.
Proof. unfold i64. rewrite Zplus_mod_idemp_l. reflexivity. Qed.

Lemma i64_add_l (a k : Z) : i64 (i64 a + k) = i64 (a + k).
Proof.
  unfold i64.
  replace ((a + 2 ^ 63) mod 2 ^ 64 - 2 ^ 63 + k + 2 ^ 63)
    with ((a + 2 ^ 63) mod 2 ^ 64 + k) by lia.
  rewrite Zplus_mod_idemp_l. do 2 f_equal. lia.
Qed.

Lemma i32_add_l (a k : Z) : i32 (i32 a + k) = i32 (a + k).
Proof.
  unfold i32.
  replace ((a + 2 ^ 31) mod 2 ^ 32 - 2 ^ 31 + k + 2 ^ 31)
    with ((a + 2 ^ 31) mod 2 ^ 32 + k) by lia.
  rewrite Zplus_mod_idemp_l. do 2 f_equal. lia.
Qed.

Lemma mod64_mod32 (x : Z) : (x mod 2 ^ 64) mod 2 ^ 32 = x mod 2 ^ 32.
Proof.
  replace (2 ^ 64) with (2 ^ 32 * 2 ^ 32) by lia.
  rewrite Z.rem_mul_r by lia.
  rewrite (Z.mul_comm (2 ^ 32)), Z_mod_plus_full. apply Zmod_mod.
Qed.

Lemma words_of (x : Z) : x mod 2 ^ 32 + 2 ^ 32 * (x / 2 ^ 32) = x.
Proof. pose proof (Z.div_mod x (2 ^ 32)). lia. Qed.

Lemma high_word_range (x : Z) : 0 <= x < 2 ^ 64 -> uint32 (x / 2 ^ 32).
Proof.
  intros Hx. unfold uint32. split.
  - apply Z.div_pos; lia.
  - apply Z.div_lt_upper_bound; lia.
Qed.

Lemma low_word_range (x : Z) : uint32 (x mod 2 ^ 32).
Proof. unfold uint32. apply Z.mod_pos_bound. lia. Qed.

(** [offset()] on the two words. *)
Lemma offset_words (o : Operand_) :
  wf o ->
  BaseMem.offset o =
  if BaseMem.isOffset64Bit o
  then i64 (_mem_offsetLo32 o + 2 ^ 32 * _baseId o)
  else i32 (_mem_offsetLo32 o).
Proof.
  intros Hwf. unfold BaseMem.offset.
  rewrite (offsetBits64_words o Hwf).
  destruct (BaseMem.isOffset64Bit o); [reflexivity |].
  apply i64_exact. pose proof (i32_range (_mem_offsetLo32 o)) as R.
  unfold int32, int64 in *. lia.
Qed.

(** [addOffset] on the two words. *)
Lemma addOffset_words (k : Z) (o : Operand_) :
  wf o ->
  BaseMem.addOffset k o =
  if BaseMem.isOffset64Bit o
  then mkOperand_ (_signature o)
         (((_data32_1 o + 2 ^ 32 * _baseId o + k) mod 2 ^ 64) / 2 ^ 32)
         (_data32_0 o)
         (((_data32_1 o + 2 ^ 32 * _baseId o + k) mod 2 ^ 64) mod 2 ^ 32)
  else mkOperand_ (_signature o) (_baseId o) (_data32_0 o)
         ((_data32_1 o + k) mod 2 ^ 32).
Proof.
  intros Hwf. pose proof (offsetBits64_words o Hwf) as HA.
  unfold BaseMem.addOffset.
  destruct (BaseMem.isOffset64Bit o).
  - unfold set_baseId, set_mem_offsetLo32.
    cbn [_signature _baseId _data32_0 _data32_1].
    rewrite u64_add_i64, HA, land_low32, shiftr_high32. unfold _mem_offsetLo32.
    set (X := (_data32_1 o + 2 ^ 32 * _baseId o + k) mod 2 ^ 64).
    assert (HX : 0 <= X < 2 ^ 64) by (apply Z.mod_pos_bound; lia).
    rewrite (u32_small _ (low_word_range X)), (u32_small _ (high_word_range X HX)).
    reflexivity.
  - unfold set_mem_offsetLo32, _mem_offsetLo32. f_equal.
    rewrite land_low32. unfold u32, u64.
    rewrite mod64_mod32, Zmod_mod, Zplus_mod_idemp_r. reflexivity.
Qed.

(** [setOffset] on the two words. *)
Lemma setOffset_words (v : Z) (o : Operand_) :
  wf o ->
  BaseMem.setOffset v o =
  if BaseMem.isOffset64Bit o
  then mkOperand_ (_signature o) ((v mod 2 ^ 64) / 2 ^ 32) (_data32_0 o) (v mod 2 ^ 32)
  else mkOperand_ (_signature o) (_baseId o) (_data32_0 o) (v mod 2 ^ 32).
Proof.
  intros (_ & Hb & _ & _). unfold BaseMem.setOffset.
  assert (Hv : 0 <= v mod 2 ^ 64 < 2 ^ 64) by (apply Z.mod_pos_bound; lia).
  assert (Elo : u32 (Z.land (u64 v) 0xFFFFFFFF) = v mod 2 ^ 32).
  { rewrite land_low32. unfold u32, u64. rewrite Zmod_mod. apply mod64_mod32. }
  assert (Ehi : u32 (Z.shiftr (u64 v) 32) = (v mod 2 ^ 64) / 2 ^ 32).
  { rewrite shiftr_high32. unfold u64. apply u32_small.
    apply high_word_range. exact Hv. }
  rewrite Elo, Ehi.
  unfold set_baseId, set_mem_offsetLo32.
  cbn [_signature _baseId _data32_0 _data32_1].
  destruct (BaseMem.isOffset64Bit o); unfold Support.bitMaskFromBool.
  - change (not32 0xFFFFFFFF) with 0.
    rewrite Z.land_0_r, Z.lor_0_r, land_low32.
    rewrite Z.mod_small by (apply high_word_range; exact Hv). reflexivity.
  - change (not32 0) with 0xFFFFFFFF.
    rewrite Z.land_0_r, Z.lor_0_l, land_low32.
    rewrite Z.mod_small by exact Hb. reflexivity.
Qed.

(** The mode is read off the signature alone. *)
Lemma isOffset64Bit_signature (a b : Operand_) :
  _signature a = _signature b -> BaseMem.isOffset64Bit a = BaseMem.isOffset64Bit b.
Proof.
  intros E. unfold BaseMem.isOffset64Bit, BaseMem.baseType, _getSignaturePart.
  rewrite E. reflexivity.
Qed.

(** X11. [setOffset] followed by [offset]: without a base the 64-bit value
    set is the value read; with a base only its low 32 bits are kept, read
    back sign-extended, and the base id is left alone.  Signature and index
    id are never touched. *)
Theorem setOffset_offset (v : Z) (o : Operand_) :
  wf o -> int64 v ->
  BaseMem.offset (BaseMem.setOffset v o) =
    (if BaseMem.isOffset64Bit o then v else i32 v) /\
  _baseId (BaseMem.setOffset v o) =
    (if BaseMem.isOffset64Bit o then (v mod 2 ^ 64) / 2 ^ 32 else _baseId o) /\
  BaseMem.offsetLo32 (BaseMem.setOffset v o) = i32 v /\
  _signature (BaseMem.setOffset v o) = _signature o /\
  _mem_indexId (BaseMem.setOffset v o) = _mem_indexId o /\
  wf (BaseMem.setOffset v o).
Proof.
  intros Hwf Hv.
  pose proof (setOffset_words v o Hwf) as W.
  assert (Hm : 0 <= v mod 2 ^ 64 < 2 ^ 64) by (apply Z.mod_pos_bound; lia).
  assert (Hsig : _signature (BaseMem.setOffset v o) = _signature o)
    by (rewrite W; destruct (BaseMem.isOffset64Bit o); reflexivity).
  assert (Hwf' : wf (BaseMem.setOffset v o)).
  { destruct Hwf as (Hs & Hb & Hi & Hl). rewrite W.
    destruct (BaseMem.isOffset64Bit o); unfold wf; cbn [_signature _baseId _data32_0 _data32_1];
      repeat split;
      first [apply Hs | apply Hb | apply Hi | apply low_word_range
            | apply (high_word_range _ Hm)]. }
  split.
  { rewrite (offset_words _ Hwf'), (isOffset64Bit_signature _ _ Hsig), W.
    destruct (BaseMem.isOffset64Bit o); unfold _mem_offsetLo32;
      cbn [_baseId _data32_1].
    - rewrite <- mod64_mod32, words_of, i64_mod64. apply i64_exact. exact Hv.
    - fold (u32 v). apply i32_u32. }
  split; [rewrite W; destruct (BaseMem.isOffset64Bit o); reflexivity |].
  split.
  { unfold BaseMem.offsetLo32. rewrite W.
    destruct (BaseMem.isOffset64Bit o); unfold _mem_offsetLo32; cbn [_data32_1];
      fold (u32 v); apply i32_u32. }
  split; [exact Hsig |].
  split; [rewrite W; destruct (BaseMem.isOffset64Bit o); reflexivity | exact Hwf'].
Qed.

Lemma setOffset_offset_witness :
  wf (BaseMem.ofDecomposed (BaseMem.mkDecomposed 6 5 0 0 0 0 0)) /\
  int64 0x1FFFFFFFF /\
  BaseMem.offset
    (BaseMem.setOffset 0x1FFFFFFFF
       (BaseMem.ofDecomposed (BaseMem.mkDecomposed 6 5 0 0 0 0 0))) = -1.
Proof.
  assert (Hwf : wf (BaseMem.ofDecomposed (BaseMem.mkDecomposed 6 5 0 0 0 0 0)))
    by (vm_compute; repeat split; congruence).
  assert (Hv : int64 0x1FFFFFFFF) by (unfold int64; lia).
  exact (conj Hwf (conj Hv (proj1 (setOffset_offset _ _ Hwf Hv)))).
Defined.

(** X12. After [resetOffset] the operand has no offset in either mode:
    [hasOffset] is false and [offset] is zero; with a base, the base id
    stays. *)
Theorem resetOffset_clears (o : Operand_) :
  wf o ->
  BaseMem.hasOffset (BaseMem.resetOffset o) = false /\
  BaseMem.offset (BaseMem.resetOffset o) = 0 /\
  _baseId (BaseMem.resetOffset o) =
    (if BaseMem.isOffset64Bit o then 0 else _baseId o).
Proof.
  intros Hwf. unfold BaseMem.resetOffset.
  pose proof (setOffset_words 0 o Hwf) as W.
  assert (Hsig : _signature (BaseMem.setOffset 0 o) = _signature o)
    by (rewrite W; destruct (BaseMem.isOffset64Bit o); reflexivity).
  unfold BaseMem.hasOffset, BaseMem.offset, BaseMem.offsetBits64.
  rewrite (isOffset64Bit_signature _ _ Hsig), W.
  destruct (BaseMem.isOffset64Bit o); unfold _mem_offsetLo32, Support.bitMaskFromBool;
    cbn [_baseId _data32_1].
  - repeat split.
  - rewrite Z.land_0_r. repeat split.
Qed.

Lemma resetOffset_clears_witness :
  wf (mkOperand_ kOpMem 0x12 0 0x34) /\
  BaseMem.hasOffset (BaseMem.resetOffset (mkOperand_ kOpMem 0x12 0 0x34)) = false.
Proof.
  assert (Hwf : wf (mkOperand_ kOpMem 0x12 0 0x34))
    by (vm_compute; repeat split; congruence).
  exact (conj Hwf (proj1 (resetOffset_clears _ Hwf))).
Defined.

(** X13. [resetBase] turns a based operand into an absolute one: the base
    type and id become zero, the operand is in the 64-bit offset mode, and
    [offset] now reads the low offset word zero-extended, where with the
    base it read it sign-extended; a displacement of -8 becomes the address
    [0xFFFFFFF8]. *)
Theorem resetBase_offset (o : Operand_) :
  wf o ->
  BaseMem.baseType (BaseMem.resetBase o) = 0 /\
  BaseMem.baseId (BaseMem.resetBase o) = 0 /\
  BaseMem.hasBase (BaseMem.resetBase o) = false /\
  BaseMem.isOffset64Bit (BaseMem.resetBase o) = true /\
  BaseMem.offset (BaseMem.resetBase o) = _mem_offsetLo32 o /\
  BaseMem.offset o =
    (if BaseMem.isOffset64Bit o
     then i64 (_mem_offsetLo32 o + 2 ^ 32 * _baseId o)
     else i32 (_mem_offsetLo32 o)) /\
  BaseMem.offset
    (BaseMem.resetBase (BaseMem.ofDecomposed (BaseMem.mkDecomposed 6 5 0 0 (-8) 0 0))) =
    0xFFFFFFF8.
Proof.
  intros Hwf.
  assert (H0 : 0 <= 0 < 2 ^ memFieldWidth MBaseType) by (simpl; lia).
  destruct (mem_field_write MBaseType 0 (_signature o) H0) as (Bg & _ & _).
  assert (Hbt : BaseMem.baseType (BaseMem.resetBase o) = 0) by exact Bg.
  assert (Hmode : BaseMem.isOffset64Bit (BaseMem.resetBase o) = true)
    by (unfold BaseMem.isOffset64Bit; rewrite Hbt; reflexivity).
  assert (Hwf' : wf (BaseMem.resetBase o)).
  { destruct Hwf as (Hs & Hb & Hi & Hl).
    unfold wf, BaseMem.resetBase, BaseMem._setBase, _setSignaturePart,
      set_baseId, set_signature.
    cbn [_signature _baseId _data32_0 _data32_1].
    split; [apply (setPart_range 5 3 kSignatureMemBaseTypeMask);
            first [shape | exact Hs] |].
    split; [unfold uint32; lia |]. split; assumption. }
  split; [exact Hbt |]. split; [reflexivity |].
  split; [rewrite hasBase_isOffset64Bit, Hmode; reflexivity |].
  split; [exact Hmode |].
  split.
  { rewrite (offset_words _ Hwf'), Hmode.
    change (_baseId (BaseMem.resetBase o)) with 0.
    change (_mem_offsetLo32 (BaseMem.resetBase o)) with (_mem_offsetLo32 o).
    rewrite Z.mul_0_r, Z.add_0_r. apply i64_exact.
    destruct Hwf as (_ & _ & _ & Hl). unfold _mem_offsetLo32, uint32, int64 in *. lia. }
  split; [apply offset_words; exact Hwf | reflexivity].
Qed.

Lemma resetBase_offset_witness :
  wf (BaseMem.ofDecomposed (BaseMem.mkDecomposed 6 5 0 0 (-8) 0 0)) /\
  BaseMem.isOffset64Bit
    (BaseMem.resetBase (BaseMem.ofDecomposed (BaseMem.mkDecomposed 6 5 0 0 (-8) 0 0))) =
  true.
Proof.
  assert (Hwf : wf (BaseMem.ofDecomposed (BaseMem.mkDecomposed 6 5 0 0 (-8) 0 0)))
    by (vm_compute; repeat split; congruence).
  pose proof (resetBase_offset _ Hwf) as (_ & _ & _ & H & _).
  exact (conj Hwf H).
Defined.

(** X14. [addOffset] seen through [offset]: without a base the offset read
    afterwards is the old one plus [k] as a 64-bit two's-complement sum; with
    a base it is the old one plus [k] as a 32-bit two's-complement sum. *)
Theorem addOffset_offset (k : Z) (o : Operand_) :
  wf o -> int64 k ->
  BaseMem.offset (BaseMem.addOffset k o) =
  if BaseMem.isOffset64Bit o
  then i64 (BaseMem.offset o + k)
  else i32 (BaseMem.offset o + k).
Proof.
  intros Hwf Hk.
  pose proof (addOffset_words k o Hwf) as W.
  assert (Hsig : _signature (BaseMem.addOffset k o) = _signature o)
    by (rewrite W; destruct (BaseMem.isOffset64Bit o); reflexivity).
  assert (Hwf' : wf (BaseMem.addOffset k o)).
  { destruct Hwf as (Hs & Hb & Hi & Hl). rewrite W.
    destruct (BaseMem.isOffset64Bit o); unfold wf;
      cbn [_signature _baseId _data32_0 _data32_1];
      repeat split;
      first [apply Hs | apply Hb | apply Hi | apply low_word_range
            | apply high_word_range; apply Z.mod_pos_bound; lia]. }
  rewrite (offset_words _ Hwf'), (isOffset64Bit_signature _ _ Hsig).
  rewrite (offset_words o Hwf), W.
  destruct (BaseMem.isOffset64Bit o); unfold _mem_offsetLo32;
    cbn [_baseId _data32_1].
  - rewrite words_of, i64_mod64, i64_add_l. reflexivity.
  - fold (u32 (_data32_1 o + k)). rewrite i32_u32, i32_add_l. reflexivity.
Qed.

Lemma addOffset_offset_witness :
  wf (BaseMem.ofDecomposed (BaseMem.mkDecomposed 6 5 0 0 0x7FFFFFFF 0 0)) /\
  int64 1 /\
  BaseMem.offset
    (BaseMem.addOffset 1
       (BaseMem.ofDecomposed (BaseMem.mkDecomposed 6 5 0 0 0x7FFFFFFF 0 0))) =
  - 2 ^ 31.
Proof.
  assert (Hwf : wf (BaseMem.ofDecomposed (BaseMem.mkDecomposed 6 5 0 0 0x7FFFFFFF 0 0)))
    by (vm_compute; repeat split; congruence).
  assert (Hk : int64 1) by (unfold int64; lia).
  exact (conj Hwf (conj Hk (addOffset_offset 1 _ Hwf Hk))).
Defined.

Lemma addOffset_wf (k : Z) (o : Operand_) : wf o -> wf (BaseMem.addOffset k o).
Proof.
  intros Hwf. rewrite (addOffset_words k o Hwf).
  destruct Hwf as (Hs & Hb & Hi & Hl).
  destruct (BaseMem.isOffset64Bit o); unfold wf;
    cbn [_signature _baseId _data32_0 _data32_1];
    repeat split;
    first [apply Hs | apply Hb | apply Hi | apply low_word_range
          | apply high_word_range; apply Z.mod_pos_bound; lia].
Qed.

Lemma addOffset_signature (k : Z) (o : Operand_) :
  wf o -> _signature (BaseMem.addOffset k o) = _signature o.
Proof.
  intros Hwf. rewrite (addOffset_words k o Hwf).
  destruct (BaseMem.isOffset64Bit o); reflexivity.
Qed.

(** [addOffset] depends on its argument modulo [2^64] only. *)
Lemma addOffset_congr (a b : Z) (o : Operand_) :
  wf o -> a mod 2 ^ 64 = b mod 2 ^ 64 ->
  BaseMem.addOffset a o = BaseMem.addOffset b o.
Proof.
  intros Hwf E. rewrite !(addOffset_words _ o Hwf).
  assert (E64 : forall c, (c + a) mod 2 ^ 64 = (c + b) mod 2 ^ 64).
  { intros c. rewrite <- (Zplus_mod_idemp_r a), <- (Zplus_mod_idemp_r b), E.
    reflexivity. }
  assert (E32 : forall c, (c + a) mod 2 ^ 32 = (c + b) mod 2 ^ 32).
  { intros c. rewrite <- (mod64_mod32 (c + a)), <- (mod64_mod32 (c + b)), E64.
    reflexivity. }
  rewrite E64, E32. reflexivity.
Qed.

Lemma addOffset_add (a b : Z) (o : Operand_) :
  wf o ->
  BaseMem.addOffset a (BaseMem.addOffset b o) = BaseMem.addOffset (a + b) o.
Proof.
  intros Hwf.
  rewrite (addOffset_words a _ (addOffset_wf b o Hwf)).
  rewrite (isOffset64Bit_signature _ _ (addOffset_signature b o Hwf)).
  rewrite !(addOffset_words _ o Hwf).
  destruct (BaseMem.isOffset64Bit o); cbn [_signature _baseId _data32_0 _data32_1].
  - rewrite words_of, Zplus_mod_idemp_l.
    replace (_data32_1 o + 2 ^ 32 * _baseId o + b + a)
      with (_data32_1 o + 2 ^ 32 * _baseId o + (a + b)) by lia.
    reflexivity.
  - rewrite Zplus_mod_idemp_l.
    replace (_data32_1 o + b + a) with (_data32_1 o + (a + b)) by lia.
    reflexivity.
Qed.

Lemma addOffset_zero (o : Operand_) : wf o -> BaseMem.addOffset 0 o = o.
Proof.
  intros Hwf. rewrite (addOffset_words 0 o Hwf).
  destruct Hwf as (Hs & Hb & Hi & Hl). unfold uint32 in *.
  destruct o as [s b d0 d1]. cbn [_signature _baseId _data32_0 _data32_1] in *.
  rewrite !Z.add_0_r.
  destruct (BaseMem.isOffset64Bit _).
  - rewrite (Z.mod_small (d1 + 2 ^ 32 * b)) by lia.
    f_equal.
    + rewrite Z.mul_comm, Z.div_add, Z.div_small by lia. reflexivity.
    + rewrite Z.mul_comm, Z_mod_plus_full. apply Z.mod_small. lia.
  - rewrite Z.mod_small by lia. reflexivity.
Qed.

(** X15. [addOffset] composes as addition does: adding [b] then [a] is
    adding their two's-complement sum, adding zero changes nothing, and
    adding [-k] undoes adding [k], in both modes and across every
    wrap-around. *)
Theorem addOffset_compose (a b : Z) (o : Operand_) :
  wf o -> int64 a -> int64 b ->
  BaseMem.addOffset a (BaseMem.addOffset b o) = BaseMem.addOffset (i64 (a + b)) o /\
  BaseMem.addOffset a (BaseMem.addOffset b o) =
    BaseMem.addOffset b (BaseMem.addOffset a o) /\
  BaseMem.addOffset 0 o = o /\
  BaseMem.addOffset (i64 (- a)) (BaseMem.addOffset a o) = o.
Proof.
  intros Hwf Ha Hb.
  assert (M : forall x, i64 x mod 2 ^ 64 = x mod 2 ^ 64) by (intros x; apply u64_i64).
  split.
  { rewrite (addOffset_add a b o Hwf). apply addOffset_congr; [exact Hwf |].
    symmetry. apply M. }
  split.
  { rewrite !addOffset_add by exact Hwf. f_equal. lia. }
  split; [apply addOffset_zero; exact Hwf |].
  rewrite (addOffset_add _ a o Hwf).
  rewrite <- (addOffset_zero o Hwf) at 2.
  apply addOffset_congr; [exact Hwf |].
  rewrite <- Zplus_mod_idemp_l, M, Zplus_mod_idemp_l. f_equal. lia.
Qed.

Lemma addOffset_compose_witness :
  wf (mkOperand_ kOpMem 0xFFFFFFFF 0 0xFFFFFFFF) /\ int64 1 /\ int64 (2 ^ 63 - 1) /\
  BaseMem.addOffset 1
    (BaseMem.addOffset (2 ^ 63 - 1) (mkOperand_ kOpMem 0xFFFFFFFF 0 0xFFFFFFFF)) =
  BaseMem.addOffset (i64 (1 + (2 ^ 63 - 1))) (mkOperand_ kOpMem 0xFFFFFFFF 0 0xFFFFFFFF).
Proof.
  assert (Hwf : wf (mkOperand_ kOpMem 0xFFFFFFFF 0 0xFFFFFFFF))
    by (vm_compute; repeat split; congruence).
  assert (Ha : int64 1) by (unfold int64; lia).
  assert (Hb : int64 (2 ^ 63 - 1)) by (unfold int64; lia).
  exact (conj Hwf (conj Ha (conj Hb (proj1 (addOffset_compose _ _ _ Hwf Ha Hb))))).
Defined.



(* ------------------------------------------------------------------ *)
(** ** Address kind and register home *)

(** X17. [setAbs] and [setRel] select the address kind exclusively: after
    [setAbs], [isAbs] holds and [isRel] does not, and the other way round
    after [setRel]; [resetAddrType] leaves neither.  The last call wins, and
    kind, base type, index type, register home flag and size read as
    before. *)
Theorem addrType_setters (o : Operand_) :
  (BaseMem.isAbs (BaseMem.setAbs o) = true /\ BaseMem.isRel (BaseMem.setAbs o) = false) /\
  (BaseMem.isRel (BaseMem.setRel o) = true /\ BaseMem.isAbs (BaseMem.setRel o) = false) /\
  (BaseMem.isAbs (BaseMem.resetAddrType o) = false /\
   BaseMem.isRel (BaseMem.resetAddrType o) = false) /\
  BaseMem.setAbs (BaseMem.setRel o) = BaseMem.setAbs o /\
  BaseMem.setRel (BaseMem.setAbs o) = BaseMem.setRel o /\
  BaseMem.resetAddrType (BaseMem.setAbs o) = BaseMem.resetAddrType o /\
  (forall g : MemField,
     g = MAddrType \/
     (_getSignaturePart (memFieldMask g) (BaseMem.setAbs o) =
        _getSignaturePart (memFieldMask g) o /\
      _getSignaturePart (memFieldMask g) (BaseMem.setRel o) =
        _getSignaturePart (memFieldMask g) o /\
      _getSignaturePart (memFieldMask g) (BaseMem.resetAddrType o) =
        _getSignaturePart (memFieldMask g) o)).
Proof.
  assert (H0 : 0 <= 0 < 2 ^ memFieldWidth MAddrType) by (simpl; lia).
  assert (H1 : 0 <= 1 < 2 ^ memFieldWidth MAddrType) by (simpl; lia).
  assert (H2 : 0 <= 2 < 2 ^ memFieldWidth MAddrType) by (simpl; lia).
  destruct (mem_field_write MAddrType 0 (_signature o) H0) as (G0 & O0 & _).
  destruct (mem_field_write MAddrType 1 (_signature o) H1) as (G1 & O1 & _).
  destruct (mem_field_write MAddrType 2 (_signature o) H2) as (G2 & O2 & _).
  assert (A1 : BaseMem.addrType (BaseMem.setAbs o) = 1) by exact G1.
  assert (A2 : BaseMem.addrType (BaseMem.setRel o) = 2) by exact G2.
  assert (A0 : BaseMem.addrType (BaseMem.resetAddrType o) = 0) by exact G0.
  assert (L : forall v1 v2, 0 <= v1 < 2 ^ 2 ->
              BaseMem.setAddrType v2 (BaseMem.setAddrType v1 o) =
              BaseMem.setAddrType v2 o).
  { intros v1 v2 Hv1.
    unfold BaseMem.setAddrType, _setSignaturePart, set_signature.
    cbn [_signature _baseId _data32_0 _data32_1]. f_equal.
    apply (setPart_setPart 2 13 kSignatureMemAddrTypeMask); shape. }
  unfold BaseMem.isAbs, BaseMem.isRel. rewrite A0, A1, A2.
  do 3 (split; [split; reflexivity |]).
  do 3 (split; [apply L; unfold BaseMem.kAddrTypeAbs, BaseMem.kAddrTypeRel; lia |]).
  intros g.
  destruct (O0 g) as [E | E0]; [left; exact E |].
  destruct (O1 g) as [E | E1]; [left; exact E |].
  destruct (O2 g) as [E | E2]; [left; exact E |].
  right. repeat split; assumption.
Qed.

Lemma getPart_land (w s mask a b : Z) :
  0 <= s -> 0 < w -> mask = Z.shiftl (Z.ones w) s -> Support.constCtz mask = s ->
  getPart mask (Z.land a b) = Z.land (getPart mask a) (getPart mask b).
Proof.
  intros Hs Hw Hmask Hctz. apply Z.bits_inj'. intros n Hn.
  rewrite Z.land_spec, !(testbit_getPart w s mask), Z.land_spec
    by first [assumption | lia].
  destruct (n <? w); rewrite ?andb_true_r, ?andb_false_r; reflexivity.
Qed.

(** X18. [setRegHome] raises the register home flag and [clearRegHome]
    lowers it, whatever it was; neither disturbs the kind, the base and index
    types, the address kind or the size, nor the id and the payload. *)
Theorem regHome_flag (o : Operand_) :
  BaseMem.isRegHome (BaseMem.setRegHome o) = true /\
  BaseMem.isRegHome (BaseMem.clearRegHome o) = false /\
  (forall g : MemField,
     g = MRegHome \/
     (_getSignaturePart (memFieldMask g) (BaseMem.setRegHome o) =
        _getSignaturePart (memFieldMask g) o /\
      _getSignaturePart (memFieldMask g) (BaseMem.clearRegHome o) =
        _getSignaturePart (memFieldMask g) o)) /\
  _baseId (BaseMem.setRegHome o) = _baseId o /\
  _baseId (BaseMem.clearRegHome o) = _baseId o /\
  _data64 (BaseMem.setRegHome o) = _data64 o /\
  _data64 (BaseMem.clearRegHome o) = _data64 o.
Proof.
  assert (R : 0 <= getPart kSignatureMemRegHomeFlag (_signature o) < 2 ^ 1)
    by (apply (getPart_range 1 15 kSignatureMemRegHomeFlag); shape).
  split.
  { unfold BaseMem.isRegHome, _hasSignaturePart, BaseMem.setRegHome, set_signature.
    cbn [_signature].
    rewrite (hasPart_getPart 1 15 kSignatureMemRegHomeFlag) by shape.
    rewrite (getPart_lor 1 15 kSignatureMemRegHomeFlag) by shape.
    change (getPart kSignatureMemRegHomeFlag kSignatureMemRegHomeFlag) with 1.
    assert (C : getPart kSignatureMemRegHomeFlag (_signature o) = 0 \/
                getPart kSignatureMemRegHomeFlag (_signature o) = 1) by lia.
    destruct C as [C | C]; rewrite C; reflexivity. }
  split.
  { unfold BaseMem.isRegHome, _hasSignaturePart, BaseMem.clearRegHome, set_signature.
    cbn [_signature].
    rewrite (hasPart_getPart 1 15 kSignatureMemRegHomeFlag) by shape.
    rewrite (getPart_land 1 15 kSignatureMemRegHomeFlag) by shape.
    change (getPart kSignatureMemRegHomeFlag (not32 kSignatureMemRegHomeFlag)) with 0.
    rewrite Z.land_0_r. reflexivity. }
  split; [| repeat split].
  intros g.
  assert (D : {g = MRegHome} + {g <> MRegHome}) by decide equality.
  destruct D as [E | Hne]; [left; exact E | right].
  destruct (mem_field_shape g) as (Hs & Hw & Hsw & Hmask & Hctz).
  pose proof (getPart_range _ _ _ Hs Hw Hmask Hctz (_signature o)) as Rg.
  unfold _getSignaturePart, BaseMem.setRegHome, BaseMem.clearRegHome, set_signature.
  cbn [_signature].
  rewrite (getPart_lor _ _ _ Hs Hw Hmask Hctz).
  rewrite (getPart_land _ _ _ _ _ Hs Hw Hmask Hctz).
  assert (F : getPart (memFieldMask g) kSignatureMemRegHomeFlag = 0 /\
              getPart (memFieldMask g) (not32 kSignatureMemRegHomeFlag) =
              Z.ones (memFieldWidth g))
    by (destruct g; try congruence; split; reflexivity).
  destruct F as [F1 F2]. rewrite F1, F2, Z.lor_0_r, Z.land_ones by lia.
  split; [reflexivity | apply Z.mod_small; exact Rg].
Qed.

(* ------------------------------------------------------------------ *)
(** ** Immediate payload *)

(** Writing [_data64] and reading it gives the value written. *)
Lemma data64_set (v : Z) (o : Operand_) : _data64 (set_data64 v o) = v.
Proof.
  unfold _data64, set_data64. cbn [_data32_0 _data32_1].
  rewrite land_low32, shiftr_high32, lor_words by apply low_word_range.
  apply words_of.
Qed.

Lemma set_data64_wf (v : Z) (o : Operand_) :
  wf o -> 0 <= v < 2 ^ 64 -> wf (set_data64 v o).
Proof.
  intros (Hs & Hb & _ & _) Hv. unfold wf, set_data64.
  cbn [_signature _baseId _data32_0 _data32_1].
  rewrite land_low32, shiftr_high32.
  repeat split;
    first [apply Hs | apply Hb | apply low_word_range | apply (high_word_range v Hv)].
Qed.

Ltac modular := Z.div_mod_to_equations; lia.

Lemma land_byte (x : Z) : Z.land x 0xFF = x mod 2 ^ 8.
Proof. change 0xFF with (Z.ones 8). apply Z.land_ones. lia. Qed.

Lemma land_half (x : Z) : Z.land x 0xFFFF = x mod 2 ^ 16.
Proof. change 0xFFFF with (Z.ones 16). apply Z.land_ones. lia. Qed.

Lemma i8_range (x : Z) : int8 (i8 x).
Proof. unfold int8, i8. modular. Qed.

Lemma i16_range (x : Z) : int16 (i16 x).
Proof. unfold int16, i16. modular. Qed.

(** A signed value stored sign-extended reads back through every view. *)
Lemma stored_i8 (y : Z) :
  int8 y -> i64 (u64 (i64 y)) = y /\ i8 (u64 (i64 y) mod 2 ^ 8) = y.
Proof. unfold int8, i8, i64, u64. intros Hy. split; modular. Qed.

Lemma stored_i16 (y : Z) :
  int16 y -> i64 (u64 (i64 y)) = y /\ i16 (u64 (i64 y) mod 2 ^ 16) = y.
Proof. unfold int16, i16, i64, u64. intros Hy. split; modular. Qed.

Lemma stored_i32 (y : Z) :
  int32 y -> i64 (u64 (i64 y)) = y /\ i32 (u64 (i64 y) mod 2 ^ 32) = y.
Proof. unfold int32, i32, i64, u64. intros Hy. split; modular. Qed.

(** X19. The sign extensions make the 64-bit value the signed number the low
    8, 16 or 32 bits of the payload spell, and keep those bits: after
    [signExtend8Bits] the value read by [i64] is the former [i8], within
    [-128, 127], [i8] reads as before, and likewise for 16 and 32 bits;
    extending twice is extending once. *)
Theorem signExtend_spec (o : Operand_) :
  (Imm.i64 (Imm.signExtend8Bits o) = Imm.i8 o /\ int8 (Imm.i8 o) /\
   Imm.i8 (Imm.signExtend8Bits o) = Imm.i8 o /\
   Imm.signExtend8Bits (Imm.signExtend8Bits o) = Imm.signExtend8Bits o) /\
  (Imm.i64 (Imm.signExtend16Bits o) = Imm.i16 o /\ int16 (Imm.i16 o) /\
   Imm.i16 (Imm.signExtend16Bits o) = Imm.i16 o /\
   Imm.signExtend16Bits (Imm.signExtend16Bits o) = Imm.signExtend16Bits o) /\
  (Imm.i64 (Imm.signExtend32Bits o) = Imm.i32 o /\ int32 (Imm.i32 o) /\
   Imm.i32 (Imm.signExtend32Bits o) = Imm.i32 o /\
   Imm.signExtend32Bits (Imm.signExtend32Bits o) = Imm.signExtend32Bits o).
Proof.
  assert (R8 : int8 (Imm.i8 o)) by apply i8_range.
  assert (R16 : int16 (Imm.i16 o)) by apply i16_range.
  assert (R32 : int32 (Imm.i32 o)) by apply i32_range.
  destruct (stored_i8 _ R8) as (V8 & L8).
  destruct (stored_i16 _ R16) as (V16 & L16).
  destruct (stored_i32 _ R32) as (V32 & L32).
  assert (K8 : Imm.i8 (Imm.signExtend8Bits o) = Imm.i8 o).
  { unfold Imm.signExtend8Bits. unfold Imm.i8 at 1.
    rewrite data64_set, land_byte. exact L8. }
  assert (K16 : Imm.i16 (Imm.signExtend16Bits o) = Imm.i16 o).
  { unfold Imm.signExtend16Bits. unfold Imm.i16 at 1.
    rewrite data64_set, land_half. exact L16. }
  assert (K32 : Imm.i32 (Imm.signExtend32Bits o) = Imm.i32 o).
  { unfold Imm.signExtend32Bits. unfold Imm.i32 at 1.
    rewrite data64_set, land_low32. exact L32. }
  split; [| split].
  - split; [| split; [exact R8 | split; [exact K8 |]]].
    + unfold Imm.i64, Imm.signExtend8Bits. rewrite data64_set. exact V8.
    + unfold Imm.signExtend8Bits at 1. rewrite K8. reflexivity.
  - split; [| split; [exact R16 | split; [exact K16 |]]].
    + unfold Imm.i64, Imm.signExtend16Bits. rewrite data64_set. exact V16.
    + unfold Imm.signExtend16Bits at 1. rewrite K16. reflexivity.
  - split; [| split; [exact R32 | split; [exact K32 |]]].
    + unfold Imm.i64, Imm.signExtend32Bits. rewrite data64_set. exact V32.
    + unfold Imm.signExtend32Bits at 1. rewrite K32. reflexivity.
Qed.

(** X20. The zero extensions keep the low 8, 16 or 32 bits of the payload
    and clear the rest: after [zeroExtend8Bits] both [u64] and [i64] read the
    former [u8], within [0, 255], and likewise for 16 and 32 bits; extending
    twice is extending once. *)
Theorem zeroExtend_spec (o : Operand_) :
  (Imm.u64 (Imm.zeroExtend8Bits o) = Imm.u8 o /\ uint8 (Imm.u8 o) /\
   Imm.i64 (Imm.zeroExtend8Bits o) = Imm.u8 o /\
   Imm.zeroExtend8Bits (Imm.zeroExtend8Bits o) = Imm.zeroExtend8Bits o) /\
  (Imm.u64 (Imm.zeroExtend16Bits o) = Imm.u16 o /\ uint16 (Imm.u16 o) /\
   Imm.i64 (Imm.zeroExtend16Bits o) = Imm.u16 o /\
   Imm.zeroExtend16Bits (Imm.zeroExtend16Bits o) = Imm.zeroExtend16Bits o) /\
  (Imm.u64 (Imm.zeroExtend32Bits o) = Imm.u32 o /\ uint32 (Imm.u32 o) /\
   Imm.i64 (Imm.zeroExtend32Bits o) = Imm.u32 o /\
   Imm.zeroExtend32Bits (Imm.zeroExtend32Bits o) = Imm.zeroExtend32Bits o).
Proof.
  assert (E8 : Imm.u8 o = _data64 o mod 2 ^ 8)
    by (unfold Imm.u8, u8; rewrite land_byte; apply Zmod_mod).
  assert (E16 : Imm.u16 o = _data64 o mod 2 ^ 16)
    by (unfold Imm.u16, u16; rewrite land_half; apply Zmod_mod).
  assert (E32 : Imm.u32 o = _data64 o mod 2 ^ 32)
    by (unfold Imm.u32, u32; rewrite land_low32; apply Zmod_mod).
  assert (R8 : uint8 (Imm.u8 o))
    by (rewrite E8; unfold uint8; apply Z.mod_pos_bound; lia).
  assert (R16 : uint16 (Imm.u16 o))
    by (rewrite E16; unfold uint16; apply Z.mod_pos_bound; lia).
  assert (R32 : uint32 (Imm.u32 o))
    by (rewrite E32; unfold uint32; apply Z.mod_pos_bound; lia).
  split; [| split].
  - split; [| split; [exact R8 | split]].
    + unfold Imm.u64, Imm.zeroExtend8Bits. rewrite data64_set, land_byte, E8.
      reflexivity.
    + unfold Imm.i64, Imm.zeroExtend8Bits. rewrite data64_set, land_byte, <- E8.
      apply i64_exact. unfold uint8, int64 in *. lia.
    + unfold Imm.zeroExtend8Bits. rewrite data64_set, !land_byte, Zmod_mod.
      reflexivity.
  - split; [| split; [exact R16 | split]].
    + unfold Imm.u64, Imm.zeroExtend16Bits. rewrite data64_set, land_half, E16.
      reflexivity.
    + unfold Imm.i64, Imm.zeroExtend16Bits. rewrite data64_set, land_half, <- E16.
      apply i64_exact. unfold uint16, int64 in *. lia.
    + unfold Imm.zeroExtend16Bits. rewrite data64_set, !land_half, Zmod_mod.
      reflexivity.
  - split; [| split; [exact R32 | split]].
    + unfold Imm.u64, Imm.zeroExtend32Bits. rewrite data64_set, land_low32, E32.
      reflexivity.
    + unfold Imm.i64, Imm.zeroExtend32Bits. rewrite data64_set, land_low32, <- E32.
      apply i64_exact. unfold uint32, int64 in *. lia.
    + unfold Imm.zeroExtend32Bits. rewrite data64_set, !land_low32, Zmod_mod.
      reflexivity.
Qed.

(** X21. A 64-bit value set with [setI64] is the value [i64] reads, and the
    constructor [Imm(val)] is [setI64(val)] on a default immediate; the
    setter leaves signature and id alone. *)
Theorem setI64_roundtrip (val : Z) (o : Operand_) :
  int64 val ->
  Imm.i64 (Imm.setI64 val o) = val /\
  Imm.u64 (Imm.setI64 val o) = val mod 2 ^ 64 /\
  Imm.setI64 val Imm.Imm = Imm.ofInt64 val /\
  _signature (Imm.setI64 val o) = _signature o /\
  _baseId (Imm.setI64 val o) = _baseId o /\
  isImm (Imm.ofInt64 val) = true.
Proof.
  intros Hv. unfold Imm.i64, Imm.u64, Imm.setI64. rewrite data64_set.
  repeat split.
  unfold u64. rewrite i64_mod64. apply i64_exact. exact Hv.
Qed.

Lemma setI64_roundtrip_witness :
  int64 (- 2 ^ 63) /\ Imm.i64 (Imm.setI64 (- 2 ^ 63) (Label.ofId 3)) = - 2 ^ 63.
Proof.
  assert (H : int64 (- 2 ^ 63)) by (unfold int64; lia).
  exact (conj H (proj1 (setI64_roundtrip _ (Label.ofId 3) H))).
Defined.

(** X22. The narrow setters store the value extended to 64 bits by its
    signedness: after [setI8], [setI16] or [setI32] the narrow signed view and
    [i64] both read the value set, the high word being all ones for a
    negative one; after [setU8], [setU16] or [setU32] the narrow unsigned
    view and [i64] both read it and the high word is zero. *)
Theorem narrow_setters (b h v ub uh uv : Z) (o : Operand_) :
  int8 b -> int16 h -> int32 v -> uint8 ub -> uint16 uh -> uint32 uv ->
  (Imm.i8 (Imm.setI8 b o) = b /\ Imm.i64 (Imm.setI8 b o) = b) /\
  (Imm.i16 (Imm.setI16 h o) = h /\ Imm.i64 (Imm.setI16 h o) = h) /\
  (Imm.i32 (Imm.setI32 v o) = v /\ Imm.i64 (Imm.setI32 v o) = v /\
   Imm.u32Hi (Imm.setI32 v o) = (if v <? 0 then 0xFFFFFFFF else 0)) /\
  (Imm.u8 (Imm.setU8 ub o) = ub /\ Imm.i64 (Imm.setU8 ub o) = ub) /\
  (Imm.u16 (Imm.setU16 uh o) = uh /\ Imm.i64 (Imm.setU16 uh o) = uh) /\
  (Imm.u32 (Imm.setU32 uv o) = uv /\ Imm.i64 (Imm.setU32 uv o) = uv /\
   Imm.u32Hi (Imm.setU32 uv o) = 0).
Proof.
  unfold int8, int16, int32, uint8, uint16, uint32.
  intros Hb Hh Hv Hub Huh Huv.
  unfold Imm.i8, Imm.i16, Imm.i32, Imm.u8, Imm.u16, Imm.u32, Imm.u32Hi, Imm.i64,
    Imm.setI8, Imm.setI16, Imm.setI32, Imm.setU8, Imm.setU16, Imm.setU32.
  rewrite !data64_set, !land_byte, !land_half, !land_low32, !shiftr_high32.
  unfold i8, i16, i32, u8, u16, u32, i64, u64.
  repeat split; try modular.
  destruct (Z.ltb_spec v 0); modular.
Qed.

Lemma narrow_setters_witness :
  int8 (-1) /\ int16 (-2) /\ int32 (-3) /\ uint8 255 /\ uint16 65535 /\
  uint32 0xFFFFFFFF /\
  Imm.i64 (Imm.setI32 (-3) Imm.Imm) = -3 /\
  Imm.i64 (Imm.setU32 0xFFFFFFFF Imm.Imm) = 0xFFFFFFFF.
Proof.
  assert (H1 : int8 (-1)) by (unfold int8; lia).
  assert (H2 : int16 (-2)) by (unfold int16; lia).
  assert (H3 : int32 (-3)) by (unfold int32; lia).
  assert (H4 : uint8 255) by (unfold uint8; lia).
  assert (H5 : uint16 65535) by (unfold uint16; lia).
  assert (H6 : uint32 0xFFFFFFFF) by (unfold uint32; lia).
  pose proof (narrow_setters _ _ _ _ _ _ Imm.Imm H1 H2 H3 H4 H5 H6)
    as (_ & _ & (_ & Hs & _) & _ & _ & (_ & Hu & _)).
  exact (conj H1 (conj H2 (conj H3 (conj H4 (conj H5 (conj H6 (conj Hs Hu))))))).
Defined.

(** X23. The two halves of an immediate: [u32Lo] and [u32Hi] are the two
    payload words, [u64] is the high one above the low one, [i32Lo] and
    [i32Hi] are their signed readings, and [u32], [i32] are the low half. *)
Theorem imm_halves (o : Operand_) :
  wf o ->
  Imm.u32Lo o = _data32_0 o /\
  Imm.u32Hi o = _data32_1 o /\
  Imm.u64 o = Imm.u32Lo o + 2 ^ 32 * Imm.u32Hi o /\
  Imm.i32Lo o = i32 (_data32_0 o) /\
  Imm.i32Hi o = i32 (_data32_1 o) /\
  Imm.u32 o = Imm.u32Lo o /\
  Imm.i32 o = Imm.i32Lo o.
Proof.
  intros Hwf. pose proof (data64_words o Hwf) as D.
  destruct Hwf as (_ & _ & H0 & H1). unfold uint32 in *.
  assert (Elo : Imm.u32Lo o = _data32_0 o).
  { unfold Imm.u32Lo. rewrite land_low32, D. unfold u32.
    rewrite Zmod_mod, Z.mul_comm, Z_mod_plus_full. apply Z.mod_small. exact H0. }
  assert (Ehi : Imm.u32Hi o = _data32_1 o).
  { unfold Imm.u32Hi. rewrite shiftr_high32, D. unfold u32.
    rewrite Z.mul_comm, Z.div_add, Z.div_small, Z.add_0_l by lia.
    apply Z.mod_small. exact H1. }
  split; [exact Elo |]. split; [exact Ehi |].
  split; [unfold Imm.u64; rewrite Elo, Ehi; exact D |].
  split.
  { unfold Imm.i32Lo. rewrite <- Elo. unfold Imm.u32Lo. symmetry. apply i32_u32. }
  split.
  { unfold Imm.i32Hi. rewrite <- Ehi. unfold Imm.u32Hi. symmetry. apply i32_u32. }
  split; reflexivity.
Qed.

Lemma imm_halves_witness :
  wf (Imm.ofInt64 (-2)) /\
  Imm.u32Lo (Imm.ofInt64 (-2)) = 0xFFFFFFFE /\
  Imm.u32Hi (Imm.ofInt64 (-2)) = 0xFFFFFFFF.
Proof.
  assert (Hwf : wf (Imm.ofInt64 (-2))) by (vm_compute; repeat split; congruence).
  pose proof (imm_halves _ Hwf) as (H1 & H2 & _).
  exact (conj Hwf (conj H1 H2)).
Defined.

(* ------------------------------------------------------------------ *)
(** ** The members stay 32-bit values *)

Lemma uint32_lor (a b : Z) : uint32 a -> uint32 b -> uint32 (Z.lor a b).
Proof.
  intros Ha Hb. apply bounded_of_bits; [lia | |].
  - apply Z.lor_nonneg. split; [apply Ha | apply Hb].
  - intros n Hn. rewrite Z.lor_spec.
    rewrite (testbit_high 32 a n), (testbit_high 32 b n) by (lia || assumption).
    reflexivity.
Qed.

Lemma uint32_land (a b : Z) : uint32 a -> uint32 (Z.land a b).
Proof.
  intros Ha. apply bounded_of_bits; [lia | |].
  - apply Z.land_nonneg. left. apply Ha.
  - intros n Hn. rewrite Z.land_spec.
    rewrite (testbit_high 32 a n) by (lia || assumption). reflexivity.
Qed.

Lemma wf_mk (a b c d : Z) :
  uint32 a -> uint32 b -> uint32 c -> uint32 d -> wf (mkOperand_ a b c d).
Proof. intros Ha Hb Hc Hd. repeat split; first [apply Ha | apply Hb | apply Hc | apply Hd]. Qed.

Lemma wf_set_signature (sig : Z) (o : Operand_) :
  wf o -> uint32 sig -> wf (set_signature sig o).
Proof. intros (_ & Hb & H0 & H1) Hs. apply wf_mk; assumption. Qed.

Lemma wf_setSignaturePart (f : MemField) (value : Z) (o : Operand_) :
  wf o -> wf (_setSignaturePart (memFieldMask f) value o).
Proof.
  intros Hwf. apply wf_set_signature; [exact Hwf |].
  destruct (mem_field_shape f) as (_ & Hw & _ & Hmask & Hctz).
  apply (setPart_range _ _ _ Hw Hmask Hctz). apply Hwf.
Qed.

Lemma setOffset_offset_wf (v : Z) (o : Operand_) :
  wf o -> wf (BaseMem.setOffset v o).
Proof.
  intros Hwf. rewrite (setOffset_words v o Hwf).
  assert (Hm : 0 <= v mod 2 ^ 64 < 2 ^ 64) by (apply Z.mod_pos_bound; lia).
  destruct Hwf as (Hs & Hb & Hi & Hl).
  destruct (BaseMem.isOffset64Bit o); apply wf_mk;
    first [assumption | apply low_word_range | apply (high_word_range _ Hm)].
Qed.

(** X24. Every constructor gives an operand whose four members are 32-bit
    values, and every mutator keeps them so: the default operand, labels,
    registers, immediates and memory operands from valid decomposed fields
    are well formed, and so is a well-formed operand after a reset, a write
    of a signature field, a change of base, index, offset, address kind or
    register home, or a rewrite of the immediate payload. *)
Theorem members_stay_uint32 (o : Operand_) (d : BaseMem.Decomposed)
    (sig rId val rType : Z) :
  wf o -> validDecomposed d -> uint32 sig -> uint32 rId ->
  (wf Operand /\ wf Label.Label /\ wf (Label.ofId rId) /\ wf BaseReg.BaseReg /\
   wf (BaseReg.make sig rId) /\ wf BaseMem.BaseMem /\ wf (BaseMem.ofDecomposed d) /\
   wf Imm.Imm /\ wf (Imm.ofInt64 val)) /\
  (wf (reset o) /\ wf (Label.reset o) /\ wf (BaseMem.reset o) /\
   wf (_initReg sig rId o)) /\
  (wf (BaseMem._setBase rType rId o) /\ wf (BaseMem._setIndex rType rId o) /\
   wf (BaseMem.resetBase o) /\ wf (BaseMem.resetIndex o) /\
   wf (BaseMem.setSize val o) /\ wf (BaseMem.setAddrType val o) /\
   wf (BaseMem.setRegHome o) /\ wf (BaseMem.clearRegHome o)) /\
  (wf (BaseMem.setOffset val o) /\ wf (BaseMem.setOffsetLo32 val o) /\
   wf (BaseMem.addOffset val o) /\ wf (BaseMem.addOffsetLo32 val o) /\
   wf (BaseMem.resetOffset o)) /\
  (wf (Imm.setI64 val o) /\
   wf (Imm.signExtend8Bits o) /\ wf (Imm.signExtend16Bits o) /\
   wf (Imm.signExtend32Bits o) /\
   wf (Imm.zeroExtend8Bits o) /\ wf (Imm.zeroExtend16Bits o) /\
   wf (Imm.zeroExtend32Bits o)).
Proof.
  intros Hwf Hd Hsig Hid.
  assert (G : forall a b c e : Z,
            (0 <=? a) && (a <? 2 ^ 32) && (0 <=? b) && (b <? 2 ^ 32) &&
            (0 <=? c) && (c <? 2 ^ 32) && (0 <=? e) && (e <? 2 ^ 32) = true ->
            wf (mkOperand_ a b c e)).
  { intros a b c e H. apply wf_mk; unfold uint32; lia. }
  assert (U : forall x, 0 <= u64 x < 2 ^ 64)
    by (intros x; unfold u64; apply Z.mod_pos_bound; lia).
  pose proof Hwf as (Hs & Hb & H0 & H1).
  destruct Hd as (_ & _ & Dbid & Diid & _ & _ & Dfl & _).
  split.
  { split; [apply G; reflexivity |].
    split; [apply G; reflexivity |].
    split; [apply wf_mk; first [exact Hid | unfold uint32, kOpLabel; lia] |].
    split; [apply G; reflexivity |].
    split; [apply wf_mk; first [exact Hsig | exact Hid | unfold uint32; lia] |].
    split; [apply G; reflexivity |].
    split.
    { apply wf_mk; try assumption; [| apply u32_range].
      repeat apply uint32_lor; first [apply u32_range | exact Dfl
                                     | unfold uint32, kOpMem; lia]. }
    split; [apply G; reflexivity |].
    unfold Imm.ofInt64, Operand_init, Support.unpackU32At0, Support.unpackU32At1.
    rewrite land_low32, shiftr_high32.
    apply wf_mk; first [apply low_word_range | apply (high_word_range _ (U val))
                       | unfold uint32, kOpImm; lia]. }
  split.
  { split; [apply G; reflexivity |].
    split; [apply G; reflexivity |].
    split; [apply G; reflexivity |].
    apply wf_mk; first [exact Hsig | exact Hid | vm_compute; split; congruence]. }
  split.
  { pose proof (wf_setSignaturePart MBaseType rType o Hwf) as (Bs & _ & B0 & B1).
    pose proof (wf_setSignaturePart MIndexType rType o Hwf) as (Is & Ib & _ & I1).
    pose proof (wf_setSignaturePart MBaseType 0 o Hwf) as (Rs & _ & R0 & R1).
    pose proof (wf_setSignaturePart MIndexType 0 o Hwf) as (Js & Jb & _ & J1).
    split; [apply wf_mk; assumption |].
    split; [apply wf_mk; assumption |].
    split; [apply wf_mk; first [assumption | unfold uint32; lia] |].
    split; [apply wf_mk; first [assumption | unfold uint32; lia] |].
    split; [apply (wf_setSignaturePart MSize); exact Hwf |].
    split; [apply (wf_setSignaturePart MAddrType); exact Hwf |].
    split; apply wf_set_signature; try exact Hwf.
    - apply uint32_lor; [exact Hs | unfold uint32; vm_compute; split; congruence].
    - apply uint32_land. exact Hs. }
  split.
  { split; [apply (setOffset_offset_wf val o Hwf) |].
    split; [apply wf_mk; first [assumption | apply u32_range] |].
    split; [apply addOffset_wf; exact Hwf |].
    split; [apply wf_mk; first [assumption | apply u32_range] |].
    apply (setOffset_offset_wf 0 o Hwf). }
  assert (S : forall x, wf (set_data64 (u64 x) o))
    by (intros x; apply set_data64_wf; [exact Hwf | apply U]).
  assert (Zx : forall n, 0 <= n <= 64 -> wf (set_data64 (_data64 o mod 2 ^ n) o)).
  { intros n Hn. apply set_data64_wf; [exact Hwf |].
    pose proof (Z.mod_pos_bound (_data64 o) (2 ^ n) ltac:(apply Z.pow_pos_nonneg; lia)).
    assert (2 ^ n <= 2 ^ 64) by (apply Z.pow_le_mono_r; lia). lia. }
  split; [apply S |].
  split; [apply S |]. split; [apply S |]. split; [apply S |].
  unfold Imm.zeroExtend8Bits, Imm.zeroExtend16Bits, Imm.zeroExtend32Bits.
  rewrite land_byte, land_half, land_low32.
  split; [apply Zx; lia |]. split; apply Zx; lia.
Qed.

Lemma members_stay_uint32_witness :
  wf (BaseReg.make 0x08000031 3) /\
  validDecomposed (BaseMem.mkDecomposed 6 5 6 0x10000 (-8) 4 0x6000) /\
  uint32 0x08000031 /\ uint32 300 /\
  wf (BaseMem.ofDecomposed (BaseMem.mkDecomposed 6 5 6 0x10000 (-8) 4 0x6000)) /\
  wf (BaseMem.addOffset (-1) (BaseReg.make 0x08000031 3)).
Proof.
  assert (H1 : wf (BaseReg.make 0x08000031 3))
    by (vm_compute; repeat split; congruence).
  assert (H2 : validDecomposed (BaseMem.mkDecomposed 6 5 6 0x10000 (-8) 4 0x6000))
    by (vm_compute; repeat split; congruence).
  assert (H3 : uint32 0x08000031) by (unfold uint32; lia).
  assert (H4 : uint32 300) by (unfold uint32; lia).
  pose proof (members_stay_uint32 _ _ 0x08000031 300 (-1) 6 H1 H2 H3 H4)
    as ((_ & _ & _ & _ & _ & _ & Hd & _) & _ & _ & (_ & _ & Ha & _) & _).
  exact (conj H1 (conj H2 (conj H3 (conj H4 (conj Hd Ha))))).
Defined.

(* ------------------------------------------------------------------ *)
(** ** From the compact register and back *)

(** X25. A [RegOnly] taken to a full register by [toReg] and back by [init]
    is the [RegOnly] it was; the full register has a zero payload and answers
    [isNone], [isPhysReg] and [isVirtReg] as the compact one.  A reset
    [RegOnly] is none and converts to the none operand.  [RegOnly::isReg] is
    only "signature not zero": it holds wherever [isReg] holds of the full
    register, and also of a signature of another kind. *)
Theorem regonly_to_full_and_back (r r0 : RegOnly.RegOnly) :
  RegOnly.initReg (RegOnly.toReg r) r0 = r /\
  _data64 (RegOnly.toReg r) = 0 /\
  isNone (RegOnly.toReg r) = RegOnly.isNone r /\
  BaseReg.isPhysReg (RegOnly.toReg r) = RegOnly.isPhysReg r /\
  BaseReg.isVirtReg (RegOnly.toReg r) = RegOnly.isVirtReg r /\
  RegOnly.isNone (RegOnly.reset r) = true /\
  RegOnly.toReg (RegOnly.reset r) = Operand /\
  RegOnly.isReg r = negb (RegOnly.isNone r) /\
  isReg (RegOnly.toReg r) && negb (RegOnly.isReg r) = false /\
  RegOnly.isReg (RegOnly.mkRegOnly kOpMem 0) = true /\
  isReg (RegOnly.toReg (RegOnly.mkRegOnly kOpMem 0)) = false.
Proof.
  destruct r as [s i].
  repeat split.
  unfold RegOnly.isReg, RegOnly.toReg, BaseReg.make, Operand_init.
  cbn [RegOnly._signature].
  destruct (Z.eqb_spec s 0) as [E | E]; [subst s; reflexivity |].
  simpl. apply andb_false_r.
Qed.

(* ------------------------------------------------------------------ *)
(** ** The access letter of the instruction-info test *)

(** X26. [accessLetter] tells the four read/write combinations apart: two
    calls give the same letter exactly when both flags agree; the letter is
    ['X'] exactly for read and write, ['_'] exactly for neither. *)
Theorem accessLetter_distinct (r w r' w' : bool) :
  Ascii.eqb (accessLetter r w) (accessLetter r' w') = Bool.eqb r r' && Bool.eqb w w' /\
  Ascii.eqb (accessLetter r w) "X"%char = r && w /\
  Ascii.eqb (accessLetter r w) "R"%char = r && negb w /\
  Ascii.eqb (accessLetter r w) "W"%char = negb r && w /\
  Ascii.eqb (accessLetter r w) "_"%char = negb r && negb w.
Proof.
  destruct r, w, r', w'; repeat split.
Qed.

(* ------------------------------------------------------------------ *)
(** ** Valid registers *)

(** X27. [BaseReg::isValid] holds exactly of an operand with a signature
    whose id is a physical or a virtual one, that is any id but [kIdBad]; a
    default-constructed register and the none operand are not valid, and no
    id is both physical and virtual. *)
Theorem isValid_spec (o : Operand_) :
  BaseReg.isValid o =
    negb (isNone o) && (BaseReg.isPhysReg o || BaseReg.isVirtReg o) /\
  BaseReg.isPhysReg o && BaseReg.isVirtReg o = false /\
  BaseReg.isValid BaseReg.BaseReg = false /\
  BaseReg.isValid Operand = false.
Proof.
  unfold BaseReg.isValid, isNone, BaseReg.isPhysReg, BaseReg.isVirtReg, BaseReg.kIdBad.
  rewrite !Z.gtb_ltb.
  repeat split.
  - destruct (_signature o =? 0); simpl; lia.
  - lia.
Qed.

(* ------------------------------------------------------------------ *)
(** ** Memory operands seen through their predicates *)

Lemma hasBase_baseType (o : Operand_) :
  BaseMem.hasBase o = negb (BaseMem.baseType o =? 0).
Proof. apply (hasPart_getPart 5 3 kSignatureMemBaseTypeMask); shape. Qed.

Lemma hasIndex_indexType (o : Operand_) :
  BaseMem.hasIndex o = negb (BaseMem.indexType o =? 0).
Proof. apply (hasPart_getPart 5 8 kSignatureMemIndexTypeMask); shape. Qed.

Lemma hasBaseLabel_eqb (o : Operand_) :
  BaseMem.hasBaseLabel o = (BaseMem.baseType o =? 1).
Proof.
  unfold BaseMem.hasBaseLabel, BaseMem.baseType, _getSignaturePart.
  apply (land_mask_eqb 5 3 kSignatureMemBaseTypeMask); shape.
Qed.

Lemma hasBaseReg_gtb (o : Operand_) :
  BaseMem.hasBaseReg o = (BaseMem.baseType o >? 1).
Proof.
  unfold BaseMem.hasBaseReg, BaseMem.baseType, _getSignaturePart.
  apply (land_mask_gtb 5 3 kSignatureMemBaseTypeMask); shape.
Qed.

Lemma hasIndexReg_gtb (o : Operand_) :
  BaseMem.hasIndexReg o = (BaseMem.indexType o >? 1).
Proof.
  unfold BaseMem.hasIndexReg, BaseMem.indexType, _getSignaturePart.
  apply (land_mask_gtb 5 8 kSignatureMemIndexTypeMask); shape.
Qed.

Lemma wf_ofDecomposed (d : BaseMem.Decomposed) :
  validDecomposed d -> wf (BaseMem.ofDecomposed d).
Proof.
  intros (_ & _ & Dbid & Diid & _ & _ & Dfl & _).
  apply wf_mk; try assumption; [| apply u32_range].
  repeat apply uint32_lor;
    first [apply u32_range | exact Dfl | unfold uint32, kOpMem; lia].
Qed.

(** X28. A memory operand built from valid decomposed fields answers the
    predicates by those fields: it is of kind memory; it has a base, a label
    base or a register base as the base type is not 0, is 1 or is above 1,
    and likewise for the index; it is in the 64-bit offset mode exactly when
    the base type is 0.  With a base, [offset] is the signed offset it was
    built from; without one it is the 64-bit value with the base id as high
    word and the offset's 32 bits as low word, so a negative offset is not
    read back. *)
Theorem ofDecomposed_views (d : BaseMem.Decomposed) :
  validDecomposed d ->
  isMem (BaseMem.ofDecomposed d) = true /\
  BaseMem.hasBase (BaseMem.ofDecomposed d) = negb (BaseMem.d_baseType d =? 0) /\
  BaseMem.hasBaseLabel (BaseMem.ofDecomposed d) =
    (BaseMem.d_baseType d =? Label.kLabelTag) /\
  BaseMem.hasBaseReg (BaseMem.ofDecomposed d) =
    (BaseMem.d_baseType d >? Label.kLabelTag) /\
  BaseMem.hasIndex (BaseMem.ofDecomposed d) = negb (BaseMem.d_indexType d =? 0) /\
  BaseMem.hasIndexReg (BaseMem.ofDecomposed d) =
    (BaseMem.d_indexType d >? Label.kLabelTag) /\
  hasSize (BaseMem.ofDecomposed d) = negb (BaseMem.d_size d =? 0) /\
  BaseMem.isOffset64Bit (BaseMem.ofDecomposed d) = (BaseMem.d_baseType d =? 0) /\
  BaseMem.offset (BaseMem.ofDecomposed d) =
    (if BaseMem.d_baseType d =? 0
     then i64 (u32 (BaseMem.d_offset d) + 2 ^ 32 * BaseMem.d_baseId d)
     else BaseMem.d_offset d).
Proof.
  intros Hd.
  destruct (ofDecomposed_fields d Hd) as (Hop & Hbt & Hit & Hsz).
  pose proof (wf_ofDecomposed d Hd) as Hwf.
  assert (Ebt : BaseMem.baseType (BaseMem.ofDecomposed d) = BaseMem.d_baseType d)
    by exact Hbt.
  assert (Eit : BaseMem.indexType (BaseMem.ofDecomposed d) = BaseMem.d_indexType d)
    by exact Hit.
  assert (Esz : size (BaseMem.ofDecomposed d) = BaseMem.d_size d) by exact Hsz.
  assert (Emode : BaseMem.isOffset64Bit (BaseMem.ofDecomposed d) =
                  (BaseMem.d_baseType d =? 0))
    by (unfold BaseMem.isOffset64Bit; rewrite Ebt; reflexivity).
  split; [unfold isMem, opType, _getSignaturePart; rewrite Hop; reflexivity |].
  split; [rewrite hasBase_baseType, Ebt; reflexivity |].
  split; [rewrite hasBaseLabel_eqb, Ebt; reflexivity |].
  split; [rewrite hasBaseReg_gtb, Ebt; reflexivity |].
  split; [rewrite hasIndex_indexType, Eit; reflexivity |].
  split; [rewrite hasIndexReg_gtb, Eit; reflexivity |].
  split.
  { unfold hasSize, _hasSignaturePart.
    rewrite (hasPart_getPart 8 24 kSignatureSizeMask) by shape.
    fold (_getSignaturePart kSignatureSizeMask (BaseMem.ofDecomposed d)).
    fold (size (BaseMem.ofDecomposed d)). rewrite Esz. reflexivity. }
  split; [exact Emode |].
  rewrite (offset_words _ Hwf), Emode.
  destruct Hd as (_ & _ & _ & _ & Hoff & _).
  destruct (BaseMem.d_baseType d =? 0); [reflexivity |].
  unfold _mem_offsetLo32, BaseMem.ofDecomposed, Operand_init. cbn [_data32_1].
  rewrite i32_u32. apply i32_small. exact Hoff.
Qed.

Lemma ofDecomposed_views_witness :
  validDecomposed (BaseMem.mkDecomposed 0 0 0 0 (-8) 0 0) /\
  BaseMem.offset (BaseMem.ofDecomposed (BaseMem.mkDecomposed 0 0 0 0 (-8) 0 0)) =
  0xFFFFFFF8.
Proof.
  assert (Hd : validDecomposed (BaseMem.mkDecomposed 0 0 0 0 (-8) 0 0))
    by (vm_compute; repeat split; congruence).
  pose proof (ofDecomposed_views _ Hd) as (_ & _ & _ & _ & _ & _ & _ & _ & H).
  exact (conj Hd H).
Defined.

(** X29. [setBase] with a register built from register traits whose type is a
    register type (2 to 31) makes that register the base: base type and base
    id are the register's, the base is a register and not a label, the
    operand leaves the 64-bit offset mode, and [offset] reads the low offset
    word as a signed 32-bit displacement; index type and index id are
    untouched. *)
Theorem setBase_register (t : RegTraits) (rId : Z) (m : Operand_) :
  2 <= kType t < 2 ^ 5 -> 0 <= kGroup t < 2 ^ 4 -> 0 <= kSize t < 2 ^ 8 ->
  uint32 rId -> wf m ->
  BaseMem.baseType (BaseMem.setBase (BaseReg.make (kSignature t) rId) m) = kType t /\
  BaseMem.baseId (BaseMem.setBase (BaseReg.make (kSignature t) rId) m) = rId /\
  BaseMem.hasBaseReg (BaseMem.setBase (BaseReg.make (kSignature t) rId) m) = true /\
  BaseMem.hasBaseLabel (BaseMem.setBase (BaseReg.make (kSignature t) rId) m) = false /\
  BaseMem.isOffset64Bit (BaseMem.setBase (BaseReg.make (kSignature t) rId) m) = false /\
  BaseMem.offset (BaseMem.setBase (BaseReg.make (kSignature t) rId) m) =
    i32 (_mem_offsetLo32 m) /\
  BaseMem.indexType (BaseMem.setBase (BaseReg.make (kSignature t) rId) m) =
    BaseMem.indexType m /\
  BaseMem.indexId (BaseMem.setBase (BaseReg.make (kSignature t) rId) m) =
    BaseMem.indexId m.
Proof.
  intros Ht Hg Hsz Hid Hwf.
  destruct (kSignature_fields t ltac:(lia) Hg Hsz) as (Et & _ & _).
  assert (Ety : BaseReg.type (BaseReg.make (kSignature t) rId) = kType t) by exact Et.
  assert (Eset : BaseMem.setBase (BaseReg.make (kSignature t) rId) m =
                 BaseMem._setBase (kType t) rId m).
  { unfold BaseMem.setBase. rewrite Ety. reflexivity. }
  rewrite Eset.
  assert (Hfit : 0 <= kType t < 2 ^ memFieldWidth MBaseType) by (simpl; lia).
  destruct (mem_field_write MBaseType (kType t) (_signature m) Hfit) as (Bg & Bo & _).
  assert (Ebt : BaseMem.baseType (BaseMem._setBase (kType t) rId m) = kType t)
    by exact Bg.
  assert (Emode : BaseMem.isOffset64Bit (BaseMem._setBase (kType t) rId m) = false).
  { unfold BaseMem.isOffset64Bit. rewrite Ebt. lia. }
  assert (Hwf' : wf (BaseMem._setBase (kType t) rId m)).
  { pose proof (wf_setSignaturePart MBaseType (kType t) m Hwf) as (Ss & _ & S0 & S1).
    apply wf_mk; assumption. }
  split; [exact Ebt |]. split; [reflexivity |].
  split; [rewrite hasBaseReg_gtb, Ebt; lia |].
  split; [rewrite hasBaseLabel_eqb, Ebt; lia |].
  split; [exact Emode |].
  split; [rewrite (offset_words _ Hwf'), Emode; reflexivity |].
  split; [| reflexivity].
  destruct (Bo MIndexType) as [E | E]; [discriminate E | exact E].
Qed.

Lemma setBase_register_witness :
  2 <= kType (mkRegTraits 1 16 0 BaseReg.kTypeGp64 BaseReg.kGroupGp 8) < 2 ^ 5 /\
  0 <= kGroup (mkRegTraits 1 16 0 BaseReg.kTypeGp64 BaseReg.kGroupGp 8) < 2 ^ 4 /\
  0 <= kSize (mkRegTraits 1 16 0 BaseReg.kTypeGp64 BaseReg.kGroupGp 8) < 2 ^ 8 /\
  uint32 5 /\ wf (mkOperand_ kOpMem 0xFFFFFFFF 0 0xFFFFFFF8) /\
  BaseMem.offset
    (BaseMem.setBase
       (BaseReg.make (kSignature (mkRegTraits 1 16 0 BaseReg.kTypeGp64 BaseReg.kGroupGp 8)) 5)
       (mkOperand_ kOpMem 0xFFFFFFFF 0 0xFFFFFFF8)) = -8.
Proof.
  assert (H1 : 2 <= kType (mkRegTraits 1 16 0 BaseReg.kTypeGp64 BaseReg.kGroupGp 8) < 2 ^ 5)
    by (vm_compute; repeat split; congruence).
  assert (H2 : 0 <= kGroup (mkRegTraits 1 16 0 BaseReg.kTypeGp64 BaseReg.kGroupGp 8) < 2 ^ 4)
    by (vm_compute; repeat split; congruence).
  assert (H3 : 0 <= kSize (mkRegTraits 1 16 0 BaseReg.kTypeGp64 BaseReg.kGroupGp 8) < 2 ^ 8)
    by (vm_compute; repeat split; congruence).
  assert (H4 : uint32 5) by (unfold uint32; lia).
  assert (H5 : wf (mkOperand_ kOpMem 0xFFFFFFFF 0 0xFFFFFFF8))
    by (vm_compute; repeat split; congruence).
  pose proof (setBase_register _ 5 _ H1 H2 H3 H4 H5) as (_ & _ & _ & _ & _ & H & _).
  exact (conj H1 (conj H2 (conj H3 (conj H4 (conj H5 H))))).
Defined.
